(** * The contribution and publication lifecycle of a JAMB mock event

    A shallow embedding of the event routes of the Express server
    ([POST /api/host/events], [POST /api/host/events/:eventId/publish],
    [DELETE /api/host/events/:eventId] and
    [POST /api/teacher/events/:eventId/contribute]) together with the
    [JambEvent] schema they read and write.  The second part adds the
    teacher's reading routes, the lookup and the scoring loops of the
    student routes, and the [saveQuestions] function of the contribution
    form in the browser.

    Modelling conventions.
    - The [JambEvent] collection is a finite map from document ids to
      documents.  A handler takes the collection and a request and returns
      the collection after the call and the JSON response; the collection
      changes only where the handler reaches [event.save()] or
      [findByIdAndDelete].
    - A Mongoose document loaded by [findById] is a private copy: the
      assignments a handler performs on it are let-bound values, and an
      exception thrown before [save] discards them.
    - JavaScript numbers that count things are integers ([Z]), the values
      of integer-valued doubles; a string is the sequence of bytes of its
      UTF-8 encoding; an absent (undefined) property of a request body is
      [None].
    - The routes of the host are mounted behind the [authenticateHost]
      middleware.  [createEvent], [publishEvent] and [deleteEvent] are the
      handlers that run once the middleware has called [next()];
      [createRoute], [publishRoute] and [deleteRoute] are the routes as
      mounted, middleware first.
    - The [_id] Mongoose adds to every subdocument of an array and the
      [createdAt] time stamp are not part of the model; the responses and
      images that [DELETE] removes besides the event are outside it too. *)

From Stdlib Require Import ZArith String Ascii Lia.
From stdpp Require Import base decidable numbers option list gmap strings pretty.

Local Open Scope Z_scope.
Local Open Scope string_scope.

(** ** JavaScript built-ins used by the handlers *)

Module Js.

(** [String.prototype.trim].  A string is the sequence of bytes of its
    UTF-8 encoding.  The code points that ECMAScript strips (WhiteSpace and
    LineTerminator) are encoded in one byte (tab, line feed, vertical tab,
    form feed, carriage return, space), in two (U+00A0: C2 A0) or in three
    (U+1680: E1 9A 80; U+2000 to U+200A: E2 80 80 to E2 80 8A; U+2028 and
    U+2029: E2 80 A8 and E2 80 A9; U+202F: E2 80 AF; U+205F: E2 81 9F;
    U+3000: E3 80 80; U+FEFF: EF BB BF). *)
Definition isWhiteSpace (c : ascii) : bool :=
  match c with
  | "009" | "010" | "011" | "012" | "013" | " " => true
  | _ => false
  end%char.

Definition isWhiteSpace2 (c1 c2 : ascii) : bool :=
  bool_decide (N_of_ascii c1 = 194 ∧ N_of_ascii c2 = 160)%N.

Definition isWhiteSpace3 (c1 c2 c3 : ascii) : bool :=
  bool_decide
    ((N_of_ascii c1 = 225 ∧ N_of_ascii c2 = 154 ∧ N_of_ascii c3 = 128)
     ∨ (N_of_ascii c1 = 226 ∧ N_of_ascii c2 = 128
        ∧ (128 <= N_of_ascii c3 <= 138 ∨ N_of_ascii c3 = 168
           ∨ N_of_ascii c3 = 169 ∨ N_of_ascii c3 = 175))
     ∨ (N_of_ascii c1 = 226 ∧ N_of_ascii c2 = 129 ∧ N_of_ascii c3 = 159)
     ∨ (N_of_ascii c1 = 227 ∧ N_of_ascii c2 = 128 ∧ N_of_ascii c3 = 128)
     ∨ (N_of_ascii c1 = 239 ∧ N_of_ascii c2 = 187 ∧ N_of_ascii c3 = 191))%N.

(** The string without the white space it starts with.  With [backwards]
    the string is read from its end, last byte first, and so is every
    encoding. *)
Fixpoint stripWhiteSpace (backwards : bool) (s : string) : string :=
  match s with
  | EmptyString => EmptyString
  | String c1 rest1 =>
      if isWhiteSpace c1 then stripWhiteSpace backwards rest1
      else
        match rest1 with
        | EmptyString => s
        | String c2 rest2 =>
            if (if backwards then isWhiteSpace2 c2 c1 else isWhiteSpace2 c1 c2)
            then stripWhiteSpace backwards rest2
            else
              match rest2 with
              | EmptyString => s
              | String c3 rest3 =>
                  if (if backwards then isWhiteSpace3 c3 c2 c1
                      else isWhiteSpace3 c1 c2 c3)
                  then stripWhiteSpace backwards rest3
                  else s
              end
        end
  end.

Definition trimStart (s : string) : string := stripWhiteSpace false s.

Definition trimEnd (s : string) : string :=
  String.rev (stripWhiteSpace true (String.rev s)).

Definition trim (s : string) : string := trimEnd (trimStart s).

(** [Array.prototype.join]. *)
Fixpoint join (sep : string) (parts : list string) : string :=
  match parts with
  | [] => ""
  | [p] => p
  | p :: rest => p +:+ sep +:+ join sep rest
  end.

(** Numbers.  A JSON numeral reaches a handler as the double nearest to
    it; the integers of the model are the values of integer-valued doubles,
    below 2^1024 in magnitude (beyond it a numeral is read as [Infinity],
    which the model leaves out).  [toNumber z] is the integer-valued double
    nearest to [z], ties to the even mantissa: the identity up to 2^53. *)
Definition toNumber (z : Z) : Z :=
  let bits := Z.log2 (Z.abs z) + 1 in
  if decide (bits <= 53) then z
  else
    let ulp := 2 ^ (bits - 53) in
    let mantissa := Z.abs z / ulp in
    let rest := Z.abs z mod ulp in
    let mantissa :=
      if decide (ulp < 2 * rest ∨ (2 * rest = ulp ∧ Z.odd mantissa = true))
      then mantissa + 1 else mantissa in
    Z.sgn z * (mantissa * ulp).

(** [Number.prototype.toString], which a template literal applies to a
    number: the decimal digits below 10^21; from there on the exponent
    form of the shortest digits that read back as the same double, the
    nearest to it when several do. *)
Definition shortestWith (x : Z) (k : nat) : option Z :=
  (* the two numbers of [k] digits next to [x], zeros appended *)
  let unit := 10 ^ (Z.of_nat (String.length (pretty x)) - Z.of_nat k) in
  let lo := x / unit * unit in
  let hi := lo + unit in
  match bool_decide (toNumber lo = x), bool_decide (toNumber hi = x) with
  | true, true =>
      Some (if decide (x - lo < hi - x
                       ∨ (x - lo = hi - x ∧ Z.even (lo / unit) = true))
            then lo else hi)
  | true, false => Some lo
  | false, true => Some hi
  | false, false => None
  end.

(** The fewest digits that do: seventeen always read back. *)
Fixpoint shortestFrom (x : Z) (k fuel : nat) : Z :=
  match fuel with
  | O => x
  | S fuel =>
      match shortestWith x k with
      | Some digits => digits
      | None => shortestFrom x (S k) fuel
      end
  end.

(** [d.ddde+n] for the digits without their trailing zeros. *)
Fixpoint dropZeros (s : string) : string :=
  match s with
  | String "0" rest => dropZeros rest
  | _ => s
  end.

Definition exponentForm (digits : Z) : string :=
  let exponent := Z.of_nat (String.length (pretty digits)) - 1 in
  match String.rev (dropZeros (String.rev (pretty digits))) with
  | EmptyString => "0"
  | String d EmptyString => String d "e+" +:+ pretty exponent
  | String d rest => String d ("." +:+ rest) +:+ "e+" +:+ pretty exponent
  end.

Definition numberToString (z : Z) : string :=
  let x := toNumber z in
  if decide (Z.abs x < 10 ^ 21) then pretty x
  else (if decide (x < 0) then "-" else "")
         +:+ exponentForm (shortestFrom (Z.abs x) 1 17).

(** A value [v || []]. *)
Definition orEmpty {A} (v : option (list A)) : list A := default [] v.

(** Code of a [try] block: either an [Error] was thrown, carrying its
    message, or a value was produced. *)
Definition Throws (A : Type) : Type := string + A.

Definition throw {A} (message : string) : Throws A := inl message.

Definition bindThrows {A B} (c : Throws A) (k : A -> Throws B) : Throws B :=
  match c with
  | inl message => inl message
  | inr a => k a
  end.

(** [Array.prototype.map] with a callback that may throw: elements are
    visited in order and the first exception aborts the traversal. *)
Fixpoint mapThrows {A B} (f : A -> Throws B) (l : list A) : Throws (list B) :=
  match l with
  | [] => inr []
  | x :: rest =>
      bindThrows (f x) (fun y =>
      bindThrows (mapThrows f rest) (fun ys => inr (y :: ys)))
  end.

End Js.

(** ** The data model (Mongoose schemas) *)

Definition ObjectId : Type := nat.

Inductive Status : Type := active | completed | published.

#[global] Instance Status_eq_dec : EqDecision Status.
Proof. solve_decision. Defined.

(** An element of [subjects[i].questions]. *)
Module Question.
Record t : Type := mk {
  question : string;
  options : list string;
  correctAnswer : Z;
  imageUrls : list string;
  imagePublicIds : list string;
  teacherId : option ObjectId;
  teacherName : option string
}.
End Question.

#[global] Instance Question_eq_dec : EqDecision Question.t.
Proof. solve_decision. Defined.

(** An element of [subjects[i].teacherContributions].  The contribution
    handler is the only code that pushes entries, always with a
    [teacherId], and it reads [tc.teacherId.toString()] without a guard. *)
Module Contribution.
Record t : Type := mk {
  teacherId : ObjectId;
  teacherName : string;
  questionCount : Z
}.

Definition set_questionCount (n : Z) (tc : t) : t :=
  mk (teacherId tc) (teacherName tc) n.
End Contribution.

(** An element of [event.subjects]. *)
Module Subject.
Record t : Type := mk {
  subject : string;
  questions : list Question.t;
  questionCount : Z;
  teacherContributions : list Contribution.t
}.

Definition set_questions (qs : list Question.t) (s : t) : t :=
  mk (subject s) qs (questionCount s) (teacherContributions s).

Definition set_questionCount (n : Z) (s : t) : t :=
  mk (subject s) (questions s) n (teacherContributions s).

Definition set_teacherContributions (tcs : list Contribution.t) (s : t) : t :=
  mk (subject s) (questions s) (questionCount s) tcs.
End Subject.

(** A [JambEvent] document ([createdAt] plays no role and is left out). *)
Module JambEvent.
Record t : Type := mk {
  title : string;
  description : option string;
  timeLimit : Z;
  questionsPerSubject : Z;
  deadline : Z;
  status : Status;
  hostId : ObjectId;
  shareId : string;
  subjects : list Subject.t;
  totalQuestions : Z
}.

Definition set_status (st : Status) (e : t) : t :=
  mk (title e) (description e) (timeLimit e) (questionsPerSubject e)
     (deadline e) st (hostId e) (shareId e) (subjects e) (totalQuestions e).

Definition set_subjects (ss : list Subject.t) (e : t) : t :=
  mk (title e) (description e) (timeLimit e) (questionsPerSubject e)
     (deadline e) (status e) (hostId e) (shareId e) ss (totalQuestions e).

Definition set_totalQuestions (n : Z) (e : t) : t :=
  mk (title e) (description e) (timeLimit e) (questionsPerSubject e)
     (deadline e) (status e) (hostId e) (shareId e) (subjects e) n.
End JambEvent.

(** The authenticated teacher, [req.teacher]. *)
Module Teacher.
Record t : Type := mk {
  _id : ObjectId;
  name : string;
  subject : string
}.
End Teacher.

(** An element of [req.body.questions] as it arrives: every property may
    be absent. *)
Module QuestionInput.
Record t : Type := mk {
  question : option string;
  options : option (list string);
  correctAnswer : option Z;
  imageUrls : option (list string);
  imagePublicIds : option (list string)
}.
End QuestionInput.

(** The body of [POST /api/host/events], with the fields the schema
    requires present. *)
Module EventInput.
Record t : Type := mk {
  title : string;
  description : option string;
  timeLimit : Z;
  questionsPerSubject : Z;
  deadline : Z
}.
End EventInput.

(** The [JambEvent] collection. *)
Abbreviation Store := (gmap ObjectId JambEvent.t).

(** ** Requests and responses *)

Record ContributeRequest : Type := mkContributeRequest {
  contribute_eventId : ObjectId;
  contribute_teacher : Teacher.t;
  contribute_questions : option (list QuestionInput.t)
}.

(** Requests of the host routes: [req.params.eventId] and [req.host._id]. *)
Record HostRequest : Type := mkHostRequest {
  host_eventId : ObjectId;
  host_id : ObjectId
}.

Inductive Response : Type :=
  (** [res.status(code).json({ error, details })] *)
  | JsonError (code : Z) (error : string) (details : option string)
  (** [{ message: 'Questions saved successfully', questionCount,
        totalSubjectQuestions, eventStatus }] *)
  | QuestionsSaved (questionCount totalSubjectQuestions : Z)
                   (eventStatus : Status)
  (** [{ message: 'Event published successfully' }] *)
  | EventPublished
  (** [{ message: 'JAMB Mock event created successfully', eventId }] *)
  | EventCreated (eventId : ObjectId)
  (** [{ message: 'Event deleted successfully' }] *)
  | EventDeleted.

(** ** The host middleware: [authenticateHost] *)

(** [jwt.verify(token, JWT_SECRET)] is not part of the program: a verifier
    maps a token to [None] when [jwt.verify] throws, and otherwise to the
    [hostId] property of the decoded payload, [Some None] when the payload
    has none. *)
Definition Verifier : Type := string -> option (option ObjectId).

(** The assignment [req.host = host].  Express defines [host] on the
    prototype of every request as an accessor with a getter and no setter,
    and the server is an ES module (it starts with [import] statements),
    hence strict code: the assignment throws a [TypeError].  The sibling
    [authenticateTeacher] assigns [req.teacher], a name Express does not
    define, and goes on to [next()]. *)
Definition assignHost (host : ObjectId) : Js.Throws ObjectId :=
  Js.throw
    "Cannot set property host of #<IncomingMessage> which has only a getter".

(** The middleware: the answer it sends, or the host [next()] is called
    with.  [hosts] is the [Host] collection, [token] is
    [req.cookies.hostToken]; an exception inside the [try] is answered by
    the [catch]. *)
Definition authenticateHost (verify : Verifier) (hosts : gset ObjectId)
    (token : option string) : Response + ObjectId :=
  match token with
  | None => inl (JsonError 401 "No host token provided" None)
  | Some token =>
      if decide (token = "") then
        inl (JsonError 401 "No host token provided" None)
      else
        match verify token with
        | None => inl (JsonError 401 "Invalid host token" None)
        | Some decoded =>
            match decoded with
            | Some hostId =>
                if decide (hostId ∈ hosts) then
                  match assignHost hostId with
                  | inl _ => inl (JsonError 401 "Invalid host token" None)
                  | inr host => inr host
                  end
                else inl (JsonError 401 "Host not found" None)
            | None => inl (JsonError 401 "Host not found" None)
            end
        end
  end.

(** [app.post(path, authenticateHost, handler)]: the handler runs only
    when the middleware calls [next()]. *)
Definition behindAuthenticateHost (verify : Verifier) (hosts : gset ObjectId)
    (token : option string) (db : Store)
    (handler : ObjectId -> Store * Response) : Store * Response :=
  match authenticateHost verify hosts token with
  | inl response => (db, response)
  | inr host => handler host
  end.

(** ** Event creation: [POST /api/host/events] *)

Definition eventSubjects : list string :=
  ["Mathematics"; "English"; "Physics"; "Chemistry"; "Biology"].

Definition emptySubject (subject : string) : Subject.t :=
  Subject.mk subject [] 0 [].

(** [new JambEvent({...})]: [status] and [totalQuestions] take the schema
    defaults ['active'] and [0]; the numbers of the body are the doubles
    [JSON.parse] made of them. *)
Definition newEvent (host : ObjectId) (shareId : string)
    (body : EventInput.t) : JambEvent.t :=
  JambEvent.mk (EventInput.title body) (EventInput.description body)
    (Js.toNumber (EventInput.timeLimit body))
    (Js.toNumber (EventInput.questionsPerSubject body))
    (EventInput.deadline body) active host shareId
    (map emptySubject eventSubjects) 0.

(** The validators [event.save()] runs on the new document: a required
    string must not be empty, and [new Date(deadline)] must be a date, which
    for a number means at most 8.64e15 milliseconds from the epoch. *)
Definition validEvent (body : EventInput.t) : bool :=
  bool_decide (EventInput.title body ≠ "")
  && bool_decide (Z.abs (EventInput.deadline body) <= 8640000000000000).

(** The handler.  The document id and the share id are generated outside
    it ([ObjectId], [uuidv4]); they are inputs of the model.  A document
    the validators refuse makes [save] throw: the [catch] answers 500 and
    nothing is stored. *)
Definition createEvent (db : Store) (host : ObjectId) (body : EventInput.t)
    (newId : ObjectId) (shareId : string) : Store * Response :=
  if validEvent body then
    (<[newId := newEvent host shareId body]> db, EventCreated newId)
  else (db, JsonError 500 "Failed to create event" None).

(** The route as mounted. *)
Definition createRoute (verify : Verifier) (hosts : gset ObjectId)
    (db : Store) (token : option string) (body : EventInput.t)
    (newId : ObjectId) (shareId : string) : Store * Response :=
  behindAuthenticateHost verify hosts token db
    (fun host => createEvent db host body newId shareId).

(** ** Publication: [POST /api/host/events/:eventId/publish] *)

(** [JambEvent.findOne({ _id: req.params.eventId, hostId: req.host._id })] *)
Definition findOwned (db : Store) (req : HostRequest) : option JambEvent.t :=
  match db !! host_eventId req with
  | Some event =>
      if decide (JambEvent.hostId event = host_id req) then Some event
      else None
  | None => None
  end.

Definition incompleteSubjects (event : JambEvent.t) : list Subject.t :=
  filter (fun subject =>
            Subject.questionCount subject < JambEvent.questionsPerSubject event)
         (JambEvent.subjects event).

(** The template literal
    [`${s.subject} (${s.questionCount}/${event.questionsPerSubject})`]. *)
Definition subjectName (event : JambEvent.t) (s : Subject.t) : string :=
  Subject.subject s +:+ " (" +:+ Js.numberToString (Subject.questionCount s)
    +:+ "/" +:+ Js.numberToString (JambEvent.questionsPerSubject event)
    +:+ ")".

Definition subjectNames (event : JambEvent.t) : list string :=
  map (subjectName event) (incompleteSubjects event).

Definition cannotPublish (event : JambEvent.t) : string :=
  "Cannot publish event. The following subjects need more questions: "
    +:+ Js.join ", " (subjectNames event).

(** The publication gate: the guard [incompleteSubjects.length > 0] does
    not fire. *)
Definition canPublish (event : JambEvent.t) : bool :=
  negb (bool_decide (0 < length (incompleteSubjects event))%nat).

(** The assignments to [event.status] performed before [event.save()], in
    program order. *)
Definition publishAssignments (event : JambEvent.t) : list Status :=
  (if decide (JambEvent.status event = active) then [completed] else [])
    ++ [published].

(** The handler: what runs once [authenticateHost] has called [next()],
    with [req.host._id] the host of the request. *)
Definition publishEvent (db : Store) (req : HostRequest) : Store * Response :=
  match findOwned db req with
  | None => (db, JsonError 404 "Event not found" None)
  | Some event =>
      if bool_decide (0 < length (incompleteSubjects event))%nat then
        (db, JsonError 400 (cannotPublish event) None)
      else
        let event :=
          foldl (fun ev st => JambEvent.set_status st ev) event
                (publishAssignments event) in
        (<[host_eventId req := event]> db, EventPublished)
  end.

(** The route as mounted. *)
Definition publishRoute (verify : Verifier) (hosts : gset ObjectId)
    (db : Store) (token : option string) (eventId : ObjectId)
    : Store * Response :=
  behindAuthenticateHost verify hosts token db
    (fun host => publishEvent db (mkHostRequest eventId host)).

(** ** Deletion: [DELETE /api/host/events/:eventId] *)

(** The handler, as far as the [JambEvent] collection goes. *)
Definition deleteEvent (db : Store) (req : HostRequest) : Store * Response :=
  match findOwned db req with
  | None => (db, JsonError 404 "Event not found" None)
  | Some _ => (delete (host_eventId req) db, EventDeleted)
  end.

(** The route as mounted. *)
Definition deleteRoute (verify : Verifier) (hosts : gset ObjectId)
    (db : Store) (token : option string) (eventId : ObjectId)
    : Store * Response :=
  behindAuthenticateHost verify hosts token db
    (fun host => deleteEvent db (mkHostRequest eventId host)).

(** ** Contribution: [POST /api/teacher/events/:eventId/contribute] *)

(** The callback of [questions.map]: three guards, then the stored
    question.  [parseInt] is the identity on the integers that pass the
    range guard. *)
Definition newQuestion (teacher : Teacher.t) (q : QuestionInput.t)
    : Js.Throws Question.t :=
  match QuestionInput.question q, QuestionInput.options q,
        QuestionInput.correctAnswer q with
  | Some question, Some options, Some correctAnswer =>
      if decide (question = "") then
        Js.throw "Invalid question data: missing required fields"
      else if decide (length options ≠ 4%nat) then
        Js.throw "Each question must have exactly 4 options"
      else if decide (correctAnswer < 0 ∨ correctAnswer > 3) then
        Js.throw "Correct answer must be between 0 and 3"
      else
        inr (Question.mk (Js.trim question) (map Js.trim options)
               correctAnswer
               (Js.orEmpty (QuestionInput.imageUrls q))
               (Js.orEmpty (QuestionInput.imagePublicIds q))
               (Some (Teacher._id teacher)) (Some (Teacher.name teacher)))
  | _, _, _ => Js.throw "Invalid question data: missing required fields"
  end.

(** An assignment to a property of [event.subjects[subjectIndex]]. *)
Definition onSubject (subjectIndex : nat) (f : Subject.t -> Subject.t)
    (event : JambEvent.t) : JambEvent.t :=
  JambEvent.set_subjects (alter f subjectIndex (JambEvent.subjects event))
    event.

(** [questions.filter(q => !q.teacherId || q.teacherId.toString() !==
    req.teacher._id.toString())] *)
Definition otherQuestions (teacher : Teacher.t) (qs : list Question.t)
    : list Question.t :=
  filter (fun q => Question.teacherId q = None
                   ∨ Question.teacherId q ≠ Some (Teacher._id teacher)) qs.

Definition removeExisting (teacher : Teacher.t) (subjectIndex : nat)
    (event : JambEvent.t) : JambEvent.t :=
  onSubject subjectIndex
    (fun s => Subject.set_questions
                (otherQuestions teacher (Subject.questions s)) s)
    event.

(** [questions.push(...newQuestions)] followed by
    [questionCount = questions.length]. *)
Definition pushQuestions (subjectIndex : nat)
    (newQuestions : list Question.t) (event : JambEvent.t) : JambEvent.t :=
  onSubject subjectIndex
    (fun s =>
       let s := Subject.set_questions (Subject.questions s ++ newQuestions) s in
       Subject.set_questionCount (Z.of_nat (length (Subject.questions s))) s)
    event.

(** The ledger: the entry found by [teacherContributions.find] is updated
    in place, otherwise a new entry is pushed. *)
Definition upsertContribution (teacher : Teacher.t) (n : Z)
    (tcs : list Contribution.t) : list Contribution.t :=
  match list_find (fun tc => Contribution.teacherId tc = Teacher._id teacher)
                  tcs with
  | Some (j, _) => alter (Contribution.set_questionCount n) j tcs
  | None =>
      tcs ++ [Contribution.mk (Teacher._id teacher) (Teacher.name teacher) n]
  end.

Definition recordContribution (teacher : Teacher.t) (subjectIndex : nat)
    (n : Z) (event : JambEvent.t) : JambEvent.t :=
  onSubject subjectIndex
    (fun s => Subject.set_teacherContributions
                (upsertContribution teacher n (Subject.teacherContributions s))
                s)
    event.

(** [event.subjects.reduce((total, subject) => total + subject.questionCount, 0)] *)
Definition updateTotal (event : JambEvent.t) : JambEvent.t :=
  JambEvent.set_totalQuestions
    (foldl (fun total subject => total + Subject.questionCount subject) 0
           (JambEvent.subjects event))
    event.

(** [event.subjects.every(subject => subject.questionCount >=
    event.questionsPerSubject)] *)
Definition allSubjectsComplete (event : JambEvent.t) : bool :=
  forallb (fun subject =>
             Subject.questionCount subject >=? JambEvent.questionsPerSubject event)
          (JambEvent.subjects event).

(** [if (allSubjectsComplete && event.status === 'active')
      event.status = 'completed'] *)
Definition checkCompleted (event : JambEvent.t) : JambEvent.t :=
  if allSubjectsComplete event && bool_decide (JambEvent.status event = active)
  then JambEvent.set_status completed event
  else event.

(** The mutations between the validation of the batch and [event.save()]. *)
Definition applyBatch (teacher : Teacher.t) (subjectIndex : nat)
    (n : Z) (newQuestions : list Question.t) (event : JambEvent.t)
    : JambEvent.t :=
  checkCompleted
    (updateTotal
       (recordContribution teacher subjectIndex n
          (pushQuestions subjectIndex newQuestions event))).

(** [event.subjects[subjectIndex].questionCount], read for the response. *)
Definition subjectQuestionCount (subjectIndex : nat) (event : JambEvent.t) : Z :=
  default 0 (Subject.questionCount <$> JambEvent.subjects event !! subjectIndex).

(** [event.subjects.findIndex(s => s.subject === req.teacher.subject)],
    together with the slot found. *)
Definition findSubject (teacher : Teacher.t) (event : JambEvent.t)
    : option (nat * Subject.t) :=
  list_find (fun s => Subject.subject s = Teacher.subject teacher)
            (JambEvent.subjects event).

(** The handler.  The guards run in the order of the source: the batch,
    the event, its status, the teacher's slot.  The loaded document is then
    filtered, the batch is validated item by item, and only a batch that
    passes is pushed, counted and saved; an exception thrown by the
    validation is caught and answered with a 500. *)
Definition contribute (db : Store) (req : ContributeRequest)
    : Store * Response :=
  let teacher := contribute_teacher req in
  match contribute_questions req with
  | None => (db, JsonError 400 "No questions provided" None)
  | Some [] => (db, JsonError 400 "No questions provided" None)
  | Some questions =>
      match db !! contribute_eventId req with
      | None => (db, JsonError 404 "Event not found" None)
      | Some event =>
          if decide (JambEvent.status event ≠ active) then
            (db, JsonError 400 "Event is not active for contributions" None)
          else
            match findSubject teacher event with
            | None => (db, JsonError 400 "Subject not found in event" None)
            | Some (subjectIndex, _) =>
                let event := removeExisting teacher subjectIndex event in
                match Js.mapThrows (newQuestion teacher) questions with
                | inl message =>
                    (db, JsonError 500 "Failed to save questions" (Some message))
                | inr newQuestions =>
                    let event :=
                      applyBatch teacher subjectIndex
                        (Z.of_nat (length questions)) newQuestions event in
                    (<[contribute_eventId req := event]> db,
                     QuestionsSaved (Z.of_nat (length questions))
                       (subjectQuestionCount subjectIndex event)
                       (JambEvent.status event))
                end
            end
      end
  end.

(** ** Runs of the server *)

(** One request served by one of the routes that write [JambEvent]
    documents.  A created event gets an id no stored document has.  For
    the routes of the host a step is a run of the handler, as if the
    middleware had let the request through; the steps of the routes as
    mounted are among these, so what holds of every collection reachable
    by these steps holds of every collection the server reaches. *)
Inductive step : Store -> Store -> Prop :=
  | step_create db host body newId shareId :
      db !! newId = None ->
      step db (createEvent db host body newId shareId).1
  | step_publish db req : step db (publishEvent db req).1
  | step_delete db req : step db (deleteEvent db req).1
  | step_contribute db req : step db (contribute db req).1.

(** The collections the server can reach from the empty one. *)
Inductive reachable : Store -> Prop :=
  | reachable_empty : reachable ∅
  | reachable_step db db' : reachable db -> step db db' -> reachable db'.

(** ** Notions used in the statements *)

(** The batch items the three guards of [newQuestion] let through. *)
Definition validQuestion (q : QuestionInput.t) : bool :=
  match QuestionInput.question q, QuestionInput.options q,
        QuestionInput.correctAnswer q with
  | Some question, Some options, Some correctAnswer =>
      bool_decide (question ≠ "")
      && bool_decide (length options = 4%nat)
      && bool_decide (0 <= correctAnswer <= 3)
  | _, _, _ => false
  end.

(** A batch the handler accepts: a non-empty array of valid items. *)
Definition validBatch (questions : list QuestionInput.t) : bool :=
  bool_decide (questions ≠ []) && forallb validQuestion questions.

(** The questions of a slot attributed to a teacher, as
    [GET /api/teacher/events/:eventId] selects them:
    [questions.filter(q => q.teacherId && q.teacherId.toString() ===
    req.teacher._id.toString())]. *)
Definition existingQuestions (teacher : Teacher.t) (qs : list Question.t)
    : list Question.t :=
  filter (fun q => Question.teacherId q = Some (Teacher._id teacher)) qs.

(** The ledger entry of a teacher, as [teacherContributions.find] reads it. *)
Definition ledgerEntry (teacher : Teacher.t) (tcs : list Contribution.t)
    : option Z :=
  (fun hit => Contribution.questionCount hit.2)
    <$> list_find (fun tc => Contribution.teacherId tc = Teacher._id teacher)
                  tcs.

(** The sum of the question counts of the slots, by recursion on the
    sequence of slots (the specification's [Σ subjects[i].questionCount]). *)
Fixpoint sumQuestionCounts (subjects : list Subject.t) : Z :=
  match subjects with
  | [] => 0
  | s :: rest => Subject.questionCount s + sumQuestionCounts rest
  end.

(** The derived caches of an event agree with the data they summarise. *)
Definition cachesAgree (event : JambEvent.t) : Prop :=
  JambEvent.totalQuestions event = sumQuestionCounts (JambEvent.subjects event)
  ∧ Forall (fun s => Subject.questionCount s
                     = Z.of_nat (length (Subject.questions s)))
           (JambEvent.subjects event).

(** The slot of the contributing teacher after the mutations of one call:
    the questions of the other teachers followed by the new batch, the
    count recomputed, the ledger entry upserted. *)
Definition replacedSubject (teacher : Teacher.t) (n : Z)
    (newQuestions : list Question.t) (s : Subject.t) : Subject.t :=
  let questions :=
    (otherQuestions teacher (Subject.questions s) ++ newQuestions)%list in
  Subject.mk (Subject.subject s) questions (Z.of_nat (length questions))
    (upsertContribution teacher n (Subject.teacherContributions s)).

(** The document a successful call saves. *)
Definition savedEvent (teacher : Teacher.t) (subjectIndex : nat)
    (questions : list QuestionInput.t) (newQuestions : list Question.t)
    (event : JambEvent.t) : JambEvent.t :=
  applyBatch teacher subjectIndex (Z.of_nat (length questions)) newQuestions
    (removeExisting teacher subjectIndex event).

(** A slot below the quota of its event. *)
Definition belowQuota (event : JambEvent.t) (s : Subject.t) : Prop :=
  Subject.questionCount s < JambEvent.questionsPerSubject event.

(** ** A concrete run

    One host, one event created through [createEvent], and one teacher per
    subject of the event. *)

Module Scenario.

Definition host : ObjectId := 9%nat.
Definition eventId : ObjectId := 5%nat.

Definition ada : Teacher.t := Teacher.mk 1%nat "Ada" "Mathematics".
Definition bob : Teacher.t := Teacher.mk 2%nat "Bob" "English".
Definition cyd : Teacher.t := Teacher.mk 3%nat "Cyd" "Physics".
Definition dee : Teacher.t := Teacher.mk 4%nat "Dee" "Chemistry".
Definition eve : Teacher.t := Teacher.mk 5%nat "Eve" "Biology".

(** A well-formed batch item. *)
Definition item (text : string) (answer : Z) : QuestionInput.t :=
  QuestionInput.mk (Some text) (Some ["a"; "b"; "c"; "d"]) (Some answer)
    None None.

(** An item with three options. *)
Definition threeOptions : QuestionInput.t :=
  QuestionInput.mk (Some "q") (Some ["a"; "b"; "c"]) (Some 0) None None.

(** An item whose second option is blank. *)
Definition blankOption : QuestionInput.t :=
  QuestionInput.mk (Some "q") (Some ["a"; "  "; "c"; "d"]) (Some 0) None None.

Definition request (teacher : Teacher.t) (batch : list QuestionInput.t)
    : ContributeRequest :=
  mkContributeRequest eventId teacher (Some batch).

Definition publishRequest : HostRequest := mkHostRequest eventId host.

(** The cookie of the host, the one token [jwt.verify] accepts, and the
    [Host] collection. *)
Definition hostToken : string := "token-of-host-9".

Definition verify : Verifier :=
  fun token => if decide (token = hostToken) then Some (Some host) else None.

Definition hosts : gset ObjectId := {[host]}.

(** The collection after the host created an event with the given quota. *)
Definition created (quota : Z) : Store :=
  (createEvent ∅ host (EventInput.mk "Mock" None 60 quota 0) eventId
     "share").1.

(** ... and after the teachers of every subject but Mathematics each
    contributed a batch of [quota] items. *)
Definition batchOf (quota : nat) : list QuestionInput.t :=
  replicate quota (item "q" 1).

Definition othersDone (quota : nat) : Store :=
  foldl (fun db teacher => (contribute db (request teacher (batchOf quota))).1)
        (created (Z.of_nat quota)) [bob; cyd; dee; eve].

(** ... and after the Mathematics teacher contributed as well. *)
Definition allDone (quota : nat) : Store :=
  (contribute (othersDone quota) (request ada (batchOf quota))).1.


(** A first batch by the Mathematics teacher that fills the last slot of
    an event with quota 1, and a second batch meant to replace it. *)
Definition firstBatch : list QuestionInput.t := [item "first" 0].
Definition secondBatch : list QuestionInput.t := [item "second" 1].

Definition afterFirst : Store :=
  (contribute (othersDone 1) (request ada firstBatch)).1.

Definition afterSecond : Store :=
  (contribute afterFirst (request ada secondBatch)).1.

(** ... and after the host's publish handler ran on the completed event. *)
Definition allPublished : Store :=
  (publishEvent (allDone 1) publishRequest).1.

(** A no-break space, U+00A0. *)
Definition nbsp : string := String "194" (String "160" "").

(** The questions of a teacher in the slot at a given index of the stored
    event. *)
Definition questionsOf (teacher : Teacher.t) (subjectIndex : nat)
    (db : Store) : option (list Question.t) :=
  event ← db !! eventId;
  slot ← JambEvent.subjects event !! subjectIndex;
  Some (existingQuestions teacher (Subject.questions slot)).

(** The document stored under [eventId]. *)
Definition stored (db : Store) : JambEvent.t :=
  default (newEvent host "" (EventInput.mk "" None 0 0 0)) (db !! eventId).

(** The Mathematics slot of the stored event. *)
Definition mathematics (db : Store) : Subject.t :=
  default (emptySubject "") (JambEvent.subjects (stored db) !! 0%nat).

End Scenario.

(** ** The teacher's reading routes *)

(** The slot a teacher's dashboard looks at:
    [event.subjects.find(s => s.subject === req.teacher.subject)]. *)
Definition mySubject (teacher : Teacher.t) (event : JambEvent.t)
    : option Subject.t :=
  snd <$> findSubject teacher event.

(** The answer of [GET /api/teacher/events/:eventId]. *)
Inductive TeacherEventResponse : Type :=
  (** [res.status(404).json({ error: 'Event not found' })] *)
  | TeacherEventNotFound
  (** [res.json({ event, existingQuestions })] *)
  | TeacherEvent (event : JambEvent.t) (existing : list Question.t).

Definition getTeacherEvent (db : Store) (eventId : ObjectId)
    (teacher : Teacher.t) : TeacherEventResponse :=
  match db !! eventId with
  | None => TeacherEventNotFound
  | Some event =>
      TeacherEvent event
        match mySubject teacher event with
        | Some slot => existingQuestions teacher (Subject.questions slot)
        | None => []
        end
  end.

(** The two counters of [GET /api/teacher/events], one event at a time:
    [mySubject && mySubject.questionCount > 0] and
    [event.status === 'active' && (!mySubject || mySubject.questionCount <
    event.questionsPerSubject)]. *)
Definition countsAsContribution (teacher : Teacher.t) (event : JambEvent.t)
    : bool :=
  match mySubject teacher event with
  | Some slot => bool_decide (0 < Subject.questionCount slot)
  | None => false
  end.

Definition countsAsPending (teacher : Teacher.t) (event : JambEvent.t)
    : bool :=
  bool_decide (JambEvent.status event = active)
  && match mySubject teacher event with
     | Some slot =>
         bool_decide (Subject.questionCount slot
                      < JambEvent.questionsPerSubject event)
     | None => true
     end.

(** The [events.forEach] loop: the pair [(myContributions, pendingEvents)]. *)
Definition teacherEventCounts (teacher : Teacher.t)
    (events : list JambEvent.t) : Z * Z :=
  foldl (fun counts event =>
           ((if countsAsContribution teacher event then counts.1 + 1
             else counts.1),
            (if countsAsPending teacher event then counts.2 + 1
             else counts.2)))
        (0, 0) events.

(** ** The student's routes *)

(** [JambEvent.findOne({ shareId, status: 'published' })].  The share id
    is a fresh UUID per event; which document a collection with two
    matching documents would yield is not specified, and the model takes
    the first in the order of the map. *)
Definition findPublished (db : Store) (shareId : string)
    : option JambEvent.t :=
  (fun hit : nat * (ObjectId * JambEvent.t) => hit.2.2)
    <$> list_find (fun entry : ObjectId * JambEvent.t =>
                     JambEvent.shareId entry.2 = shareId
                     ∧ JambEvent.status entry.2 = published)
                  (map_to_list db).

(** An element of [req.body.answers] of a JAMB mock submission. *)
Module Answer.
Record t : Type := mk {
  subject : string;
  questionIndex : Z;
  selectedAnswer : option Z
}.
End Answer.

(** An element of the [scores] array. *)
Module SubjectScore.
Record t : Type := mk {
  subject : string;
  score : Z;
  totalQuestions : Z
}.
End SubjectScore.

(** [array[index]] for an integer index: [undefined] outside the array. *)
Definition at_index {A} (l : list A) (index : Z) : option A :=
  if decide (0 <= index) then l !! Z.to_nat index else None.

(** [answers.filter(a => a.subject === subject.subject)] *)
Definition subjectAnswers (subject : Subject.t) (answers : list Answer.t)
    : list Answer.t :=
  filter (fun a => Answer.subject a = Subject.subject subject) answers.

(** [question && answer.selectedAnswer === question.correctAnswer] *)
Definition answeredCorrectly (subject : Subject.t) (answer : Answer.t)
    : bool :=
  match at_index (Subject.questions subject) (Answer.questionIndex answer) with
  | Some question =>
      bool_decide (Answer.selectedAnswer answer
                   = Some (Question.correctAnswer question))
  | None => false
  end.

(** The inner [subjectAnswers.forEach]. *)
Definition subjectScore (subject : Subject.t) (answers : list Answer.t) : Z :=
  foldl (fun score answer =>
           if answeredCorrectly subject answer then score + 1 else score)
        0 (subjectAnswers subject answers).

(** The outer [event.subjects.forEach] of
    [POST /api/jamb-mock/submit/:shareId]: the triple
    [(scores, totalScore, totalQuestions)].  The percentage, a rounded
    floating-point quotient of the last two, is not modelled. *)
Definition scoreSubmission (event : JambEvent.t) (answers : list Answer.t)
    : list SubjectScore.t * Z * Z :=
  foldl (fun acc subject =>
           let '(scores, totalScore, totalQuestions) := acc in
           let mine := subjectAnswers subject answers in
           let score := subjectScore subject answers in
           ((scores ++ [SubjectScore.mk (Subject.subject subject) score
                          (Z.of_nat (length mine))])%list,
            totalScore + score,
            totalQuestions + Z.of_nat (length mine)))
        ([], 0, 0) (JambEvent.subjects event).

(** The scoring loop of [POST /api/submit/:shareId]:
    [answers.forEach((answer, index) => { if (answer ===
    quiz.questions[index].correctAnswer) score++ })].  Reading
    [correctAnswer] of a question that does not exist throws; the handler
    then answers 500 and saves nothing ([None]). *)
Fixpoint quizScoreFrom (questions : list Question.t) (index : nat)
    (answers : list (option Z)) (score : Z) : option Z :=
  match answers with
  | [] => Some score
  | answer :: rest =>
      match questions !! index with
      | None => None
      | Some question =>
          quizScoreFrom questions (S index) rest
            (if bool_decide (answer = Some (Question.correctAnswer question))
             then score + 1 else score)
      end
  end.

Definition quizScore (questions : list Question.t)
    (answers : list (option Z)) : option Z :=
  quizScoreFrom questions 0 answers 0.

(** The order of the lifecycle: [active], then [completed], then
    [published]. *)
Definition statusRank (st : Status) : nat :=
  match st with
  | active => 0
  | completed => 1
  | published => 2
  end.

(** The number of positions at which an answer is the correct answer of
    the question at the same position. *)
Definition correctPositions (questions : list Question.t)
    (answers : list (option Z)) : nat :=
  length (filter (fun pair : option Z * Question.t =>
                    pair.1 = Some (Question.correctAnswer pair.2))
                 (zip answers questions)).

(** The answers of a submission that name a slot of the event. *)
Definition answersInEvent (event : JambEvent.t) (answers : list Answer.t)
    : list Answer.t :=
  filter (fun a => Answer.subject a
                   ∈ map Subject.subject (JambEvent.subjects event))
         answers.

(** ** The contribution form in the browser *)

(** More built-ins, used by the form. *)
Module JsText.


(** [s.split(c)] for a single-character separator; the empty string
    splits into one empty piece. *)
Fixpoint split (sep : ascii) (s : string) : list string :=
  match s with
  | EmptyString => [""]
  | String c rest =>
      if decide (c = sep) then "" :: split sep rest
      else match split sep rest with
           | piece :: pieces => String c piece :: pieces
           | [] => [String c ""]
           end
  end.

(** The value of a digit or letter as a digit of [parseInt]. *)
Definition digitValue (c : ascii) : option Z :=
  let n := Z.of_N (N_of_ascii c) in
  if decide (48 <= n <= 57) then Some (n - 48)
  else if decide (97 <= n <= 122) then Some (n - 87)
  else if decide (65 <= n <= 90) then Some (n - 55)
  else None.

(** The longest prefix of digits of the radix, read from the left;
    [None] when there is no digit. *)
Fixpoint digitsFrom (radix : Z) (s : string) (acc : option Z) : option Z :=
  match s with
  | EmptyString => acc
  | String c rest =>
      match digitValue c with
      | Some d =>
          if decide (d < radix)
          then digitsFrom radix rest (Some (default 0 acc * radix + d))
          else acc
      | None => acc
      end
  end.

(** [parseInt(s)] without a radix argument: leading white space, an
    optional sign, an optional [0x] prefix selecting radix 16, then the
    digits; [None] is [NaN].  Integers are exact. *)
Definition parseInt (s : string) : option Z :=
  let s := Js.trimStart s in
  let '(sign, s) :=
    match s with
    | String c rest =>
        if decide (c = "-"%char) then (-1, rest)
        else if decide (c = "+"%char) then (1, rest)
        else (1, s)
    | EmptyString => (1, s)
    end in
  let '(radix, s) :=
    match s with
    | String c (String c' rest) =>
        if decide (c = "0"%char ∧ (c' = "x"%char ∨ c' = "X"%char))
        then (16, rest) else (10, s)
    | _ => (10, s)
    end in
  Z.mul sign <$> digitsFrom radix s None.

End JsText.

(** [formData.get(name)]: the value of the field, [None] for [null]. *)
Definition FormData : Type := string -> option string.

(** A question as [saveQuestions] pushes it; the correct answer is the
    result of [parseInt], [None] being [NaN]. *)
Module FormQuestion.
Record t : Type := mk {
  question : string;
  options : list string;
  correctAnswer : option Z;
  imageUrls : list string;
  imagePublicIds : list string
}.
End FormQuestion.


Definition readList (value : option string) : list string :=
  match value with
  | None => []
  | Some "" => []
  | Some s => filter (fun piece => Js.trim piece ≠ "") (JsText.split "," s)
  end.

(** What [saveQuestions] makes of one [.question-item]. *)
Inductive FormItem : Type :=
  (** the question text is missing or blank: nothing happens *)
  | ItemSkipped
  (** [showAlert(message, 'error'); return] *)
  | ItemAlert (message : string)
  (** [questions.push({...})] *)
  | ItemPushed (q : FormQuestion.t).

(** [!option || !option.trim()] *)
Definition blankField (value : option string) : bool :=
  match value with
  | None => true
  | Some s => bool_decide (s = "") || bool_decide (Js.trim s = "")
  end.

(** The body of the [questionElements.forEach] callback for the element
    numbered [questionNumber = index + 1]. *)
Definition formItem (formData : FormData) (questionNumber : nat) : FormItem :=
  let number := pretty questionNumber in
  match formData ("question-" +:+ number) with
  | None => ItemSkipped
  | Some questionText =>
      if bool_decide (questionText = "") || bool_decide (Js.trim questionText = "")
      then ItemSkipped
      else
        let options :=
          [formData ("option-" +:+ number +:+ "-0");
           formData ("option-" +:+ number +:+ "-1");
           formData ("option-" +:+ number +:+ "-2");
           formData ("option-" +:+ number +:+ "-3")] in
        let correctAnswer :=
          match formData ("correct-" +:+ number) with
          | None => Some (-1)
          | Some "" => Some (-1)
          | Some value => JsText.parseInt value
          end in
        let imageUrls := readList (formData ("image-urls-" +:+ number)) in
        let imagePublicIds :=
          readList (formData ("image-public-ids-" +:+ number)) in
        if existsb blankField options then
          ItemAlert ("Question " +:+ number +:+ ": All options must be filled")
        else if match correctAnswer with
                | Some n => bool_decide (n < 0 ∨ n > 3)
                | None => false
                end then
          ItemAlert ("Question " +:+ number
                       +:+ ": Please select a correct answer")
        else
          ItemPushed
            (FormQuestion.mk (Js.trim questionText)
               (map (fun o => Js.trim (default "" o)) options)
               correctAnswer imageUrls imagePublicIds)
  end.

(** The outcome of [saveQuestions] up to the [fetch]. *)
Inductive SaveOutcome : Type :=
  (** an alert and [return]: nothing is posted *)
  | NotPosted (message : string)
  (** [fetch(.../contribute, { body: JSON.stringify({ questions }) })] *)
  | Posted (questions : list FormQuestion.t).

(** The questions pushed and the alerts raised by the loop, in order. *)
Fixpoint pushedQuestions (items : list FormItem) : list FormQuestion.t :=
  match items with
  | [] => []
  | ItemPushed q :: rest => q :: pushedQuestions rest
  | _ :: rest => pushedQuestions rest
  end.

Fixpoint raisedAlerts (items : list FormItem) : list string :=
  match items with
  | [] => []
  | ItemAlert message :: rest => message :: raisedAlerts rest
  | _ :: rest => raisedAlerts rest
  end.

(** [eventData?.questionsPerSubject || 10] *)
Definition maxQuestions (eventData : option JambEvent.t) : Z :=
  match eventData with
  | None => 10
  | Some event =>
      if decide (JambEvent.questionsPerSubject event = 0) then 10
      else JambEvent.questionsPerSubject event
  end.

(** [saveQuestions] for a form with [count] question elements: the alerts
    raised inside the loop and the outcome. *)
Definition saveQuestions (formData : FormData) (count : nat)
    (eventData : option JambEvent.t) : list string * SaveOutcome :=
  let items := map (formItem formData) (seq 1 count) in
  let questions := pushedQuestions items in
  (raisedAlerts items,
   if decide (length questions = 0%nat) then
     NotPosted "Please add at least one complete question"
   else if decide (Z.of_nat (length questions) > maxQuestions eventData) then
     NotPosted ("Maximum " +:+ Js.numberToString (maxQuestions eventData)
                  +:+ " questions allowed for this event")
   else Posted questions).

(** The element of [req.body.questions] the server receives for a pushed
    question whose correct answer is a number. *)
Definition asInput (q : FormQuestion.t) : QuestionInput.t :=
  QuestionInput.mk (Some (FormQuestion.question q))
    (Some (FormQuestion.options q)) (FormQuestion.correctAnswer q)
    (Some (FormQuestion.imageUrls q)) (Some (FormQuestion.imagePublicIds q)).

(** A form of two question elements, the first complete and the second
    with a blank third option. *)
Module FormScenario.

Definition fields : list (string * string) :=
  [("question-1", " What is 2 + 2? "); ("option-1-0", "3");
   ("option-1-1", " 4"); ("option-1-2", "5"); ("option-1-3", "6");
   ("correct-1", "1"); ("image-urls-1", "http://img/a.png,http://img/b.png");
   ("image-public-ids-1", "a,b");
   ("question-2", "What is 3 + 3?"); ("option-2-0", "5");
   ("option-2-1", "6"); ("option-2-2", "  "); ("option-2-3", "8");
   ("correct-2", "1"); ("image-urls-2", ""); ("image-public-ids-2", "")].

Definition formData : FormData :=
  fun name => snd <$> List.find (fun field => bool_decide (field.1 = name)) fields.

End FormScenario.

(** ** Properties of the built-ins *)

(** [trim] strips the white space of Unicode on both sides, here a no-break
    space and a tab before and a space and a line separator (U+2028)
    after, and nothing inside. *)
Lemma trim_unicode :
  Js.trim (String "194" (String "160" (String "009" "a b "))
             +:+ String "226" (String "128" (String "168" "")))
  = "a b".
Proof. vm_compute. reflexivity. Qed.

(** Numbers print as the doubles they are. *)
Lemma numberToString_examples :
  Js.numberToString 42 = "42"
  ∧ Js.numberToString (2 ^ 53 + 1) = "9007199254740992"
  ∧ Js.numberToString (10 ^ 21) = "1e+21"
  ∧ Js.numberToString (2 ^ 70) = "1.1805916207174113e+21".
Proof. split_and!; vm_compute; reflexivity. Qed.

Lemma mapThrows_inr_Forall2 {A B} (f : A -> Js.Throws B) l ys :
  Js.mapThrows f l = inr ys -> Forall2 (fun x y => f x = inr y) l ys.
Proof.
  revert ys. induction l as [|x l IH]; intros ys H; simpl in H.
  - injection H as <-. constructor.
  - destruct (f x) as [m|y] eqn:Hx; simpl in H; [discriminate|].
    destruct (Js.mapThrows f l) as [m|ys'] eqn:Hl; simpl in H; [discriminate|].
    injection H as <-. constructor; auto.
Qed.

Lemma mapThrows_Forall2_inr {A B} (f : A -> Js.Throws B) l ys :
  Forall2 (fun x y => f x = inr y) l ys -> Js.mapThrows f l = inr ys.
Proof.
  induction 1 as [|x y l ys Hx _ IH]; simpl; [done|].
  by rewrite Hx, IH.
Qed.

Lemma mapThrows_inl_elem {A B} (f : A -> Js.Throws B) l m :
  Js.mapThrows f l = inl m -> ∃ x, x ∈ l ∧ f x = inl m.
Proof.
  induction l as [|x l IH]; simpl; [discriminate|].
  destruct (f x) as [m'|y] eqn:Hx; simpl.
  - intros [= <-]. exists x. split; [left|done].
  - destruct (Js.mapThrows f l) as [m'|ys] eqn:Hl; simpl; [|discriminate].
    intros [= <-]. destruct IH as (x' & Hin & Hf); [done|].
    exists x'. split; [by right|done].
Qed.

Lemma mapThrows_elem_inl {A B} (f : A -> Js.Throws B) l x m :
  x ∈ l -> f x = inl m -> ∃ m', Js.mapThrows f l = inl m'.
Proof.
  induction 1 as [x l|x y l Hin IH]; intros Hx; simpl.
  - rewrite Hx. by exists m.
  - destruct (f y) as [m'|y'] eqn:Hy; simpl; [by exists m'|].
    destruct (IH Hx) as [m' ->]. by exists m'.
Qed.

(** ** Properties of [newQuestion] *)

Lemma newQuestion_valid teacher q :
  validQuestion q = true -> ∃ y, newQuestion teacher q = inr y.
Proof.
  unfold validQuestion, newQuestion.
  destruct (QuestionInput.question q) as [text|]; [|done].
  destruct (QuestionInput.options q) as [opts|]; [|done].
  destruct (QuestionInput.correctAnswer q) as [ans|]; [|done].
  rewrite !andb_true_iff, !bool_decide_eq_true. intros [[Ht Ho] Ha].
  repeat case_decide; try done; try lia. eauto.
Qed.

Lemma newQuestion_invalid teacher q :
  validQuestion q = false -> ∃ m, newQuestion teacher q = inl m.
Proof.
  unfold validQuestion, newQuestion, Js.throw.
  destruct (QuestionInput.question q) as [text|]; [|eauto].
  destruct (QuestionInput.options q) as [opts|]; [|eauto].
  destruct (QuestionInput.correctAnswer q) as [ans|]; [|eauto].
  rewrite !andb_false_iff, !bool_decide_eq_false. intros H.
  repeat case_decide; eauto. exfalso. destruct H as [[H|H]|H]; [done|done|lia].
Qed.

Lemma newQuestion_teacherId teacher q y :
  newQuestion teacher q = inr y ->
  Question.teacherId y = Some (Teacher._id teacher).
Proof.
  unfold newQuestion, Js.throw.
  destruct (QuestionInput.question q) as [text|]; [|done].
  destruct (QuestionInput.options q) as [opts|]; [|done].
  destruct (QuestionInput.correctAnswer q) as [ans|]; [|done].
  repeat case_decide; try done. by intros [= <-].
Qed.

Lemma mapThrows_newQuestion_valid teacher questions :
  forallb validQuestion questions = true ->
  ∃ newQuestions,
    Js.mapThrows (newQuestion teacher) questions = inr newQuestions.
Proof.
  induction questions as [|q qs IH]; simpl; [eauto|].
  rewrite andb_true_iff. intros [Hq Hqs].
  destruct (newQuestion_valid teacher q Hq) as [y ->].
  destruct (IH Hqs) as [ys ->]. simpl. eauto.
Qed.

Lemma mapThrows_newQuestion_teacherId teacher questions newQuestions :
  Js.mapThrows (newQuestion teacher) questions = inr newQuestions ->
  Forall (fun y => Question.teacherId y = Some (Teacher._id teacher))
         newQuestions.
Proof.
  intros H%mapThrows_inr_Forall2.
  induction H as [|q y qs ys Hq _ IH]; constructor;
    eauto using newQuestion_teacherId.
Qed.

Lemma mapThrows_newQuestion_length teacher questions newQuestions :
  Js.mapThrows (newQuestion teacher) questions = inr newQuestions ->
  length newQuestions = length questions.
Proof. intros H%mapThrows_inr_Forall2. symmetry. by eapply Forall2_length. Qed.

(** The exception of a batch is the one of its first item that throws. *)
Lemma mapThrows_first_throw {A B} (f : A -> Js.Throws B) l m :
  Js.mapThrows f l = inl m ->
  ∃ k x, l !! k = Some x
         ∧ f x = inl m
         ∧ ∀ j earlier, (j < k)%nat -> l !! j = Some earlier ->
                        ∃ y, f earlier = inr y.
Proof.
  induction l as [|x l IH]; [done|]. simpl. unfold Js.bindThrows.
  destruct (f x) as [m'|y] eqn:Hx.
  - intros [= <-]. exists 0%nat, x. split_and!; [done|done|].
    intros j earlier Hj. lia.
  - destruct (Js.mapThrows f l) as [m'|ys]; [|done]. intros [= <-].
    destruct (IH eq_refl) as (k & x0 & Hk & Hx0 & Hbefore).
    exists (S k), x0. split_and!; [done|done|].
    intros [|j] earlier Hj Hl; simpl in Hl.
    + injection Hl as <-. eauto.
    + apply (Hbefore j); [lia|done].
Qed.

(** Which guard of [newQuestion] throws which message. *)
Lemma newQuestion_throws teacher q m :
  newQuestion teacher q = inl m ->
  ((QuestionInput.question q = None
    ∨ QuestionInput.question q = Some ""
    ∨ QuestionInput.options q = None
    ∨ QuestionInput.correctAnswer q = None)
   ∧ m = "Invalid question data: missing required fields")
  ∨ (∃ text options answer,
       QuestionInput.question q = Some text ∧ text ≠ ""
       ∧ QuestionInput.options q = Some options
       ∧ QuestionInput.correctAnswer q = Some answer
       ∧ length options ≠ 4%nat
       ∧ m = "Each question must have exactly 4 options")
  ∨ (∃ text options answer,
       QuestionInput.question q = Some text ∧ text ≠ ""
       ∧ QuestionInput.options q = Some options
       ∧ QuestionInput.correctAnswer q = Some answer
       ∧ length options = 4%nat
       ∧ (answer < 0 ∨ 3 < answer)
       ∧ m = "Correct answer must be between 0 and 3").
Proof.
  unfold newQuestion, Js.throw.
  destruct (QuestionInput.question q) as [text|]; [|intros [= <-]; auto].
  destruct (QuestionInput.options q) as [options|];
    [|intros [= <-]; left; auto].
  destruct (QuestionInput.correctAnswer q) as [answer|];
    [|intros [= <-]; left; auto].
  case_decide as Htext; [intros [= <-]; subst; left; auto|].
  case_decide as Hlen.
  { intros [= <-]. right. left. exists text, options, answer. auto 10. }
  case_decide as Hrange; [|done].
  intros [= <-]. right. right. exists text, options, answer.
  split_and!; try done; lia.
Qed.

Lemma newQuestion_inr_valid teacher q y :
  newQuestion teacher q = inr y -> validQuestion q = true.
Proof.
  intros Hy. destruct (validQuestion q) eqn:Hvalid; [done|].
  destruct (newQuestion_invalid teacher q Hvalid) as [m Hm]. congruence.
Qed.

(** ** Replacement of a teacher's questions *)

Lemma otherQuestions_existing teacher qs :
  existingQuestions teacher (otherQuestions teacher qs) = [].
Proof.
  unfold existingQuestions, otherQuestions.
  induction qs as [|q qs IH]; [done|].
  rewrite (filter_cons _ q qs). case_decide as Hq; [|done].
  rewrite filter_cons_False; [done|]. intros Heq. destruct Hq; congruence.
Qed.

Lemma existingQuestions_all teacher qs :
  Forall (fun y => Question.teacherId y = Some (Teacher._id teacher)) qs ->
  existingQuestions teacher qs = qs.
Proof.
  unfold existingQuestions. induction 1 as [|q qs Hq _ IH]; [done|].
  by rewrite filter_cons_True, IH.
Qed.

Lemma otherQuestions_none teacher qs :
  Forall (fun y => Question.teacherId y = Some (Teacher._id teacher)) qs ->
  otherQuestions teacher qs = [].
Proof.
  unfold otherQuestions. induction 1 as [|q qs Hq _ IH]; [done|].
  rewrite filter_cons_False; [done|]. intros [H|H]; congruence.
Qed.

Lemma otherQuestions_idemp teacher qs :
  otherQuestions teacher (otherQuestions teacher qs) = otherQuestions teacher qs.
Proof.
  unfold otherQuestions. induction qs as [|q qs IH]; [done|].
  rewrite (filter_cons _ q qs). case_decide as Hq; [|done].
  by rewrite filter_cons_True, IH.
Qed.

(** What the teacher sees after a replacement is the new batch alone. *)
Lemma existingQuestions_replaced teacher qs newQuestions :
  Forall (fun y => Question.teacherId y = Some (Teacher._id teacher))
         newQuestions ->
  existingQuestions teacher (otherQuestions teacher qs ++ newQuestions)
  = newQuestions.
Proof.
  intros H. unfold existingQuestions at 1. rewrite filter_app.
  fold (existingQuestions teacher (otherQuestions teacher qs)).
  fold (existingQuestions teacher newQuestions).
  by rewrite otherQuestions_existing, existingQuestions_all.
Qed.

(** Removing the teacher's questions again undoes the push. *)
Lemma otherQuestions_replaced teacher qs newQuestions :
  Forall (fun y => Question.teacherId y = Some (Teacher._id teacher))
         newQuestions ->
  otherQuestions teacher (otherQuestions teacher qs ++ newQuestions)
  = otherQuestions teacher qs.
Proof.
  intros H. unfold otherQuestions at 1. rewrite filter_app.
  fold (otherQuestions teacher (otherQuestions teacher qs)).
  fold (otherQuestions teacher newQuestions).
  by rewrite otherQuestions_idemp, (otherQuestions_none _ newQuestions H), app_nil_r.
Qed.

(** ** The ledger *)

Lemma ledgerEntry_upsert teacher n tcs :
  ledgerEntry teacher (upsertContribution teacher n tcs) = Some n.
Proof.
  unfold ledgerEntry, upsertContribution.
  destruct (list_find _ tcs) as [[j tc]|] eqn:Hfind.
  - apply list_find_Some in Hfind as (Hj & Htc & Hfirst).
    assert (list_find
              (fun tc => Contribution.teacherId tc = Teacher._id teacher)
              (alter (Contribution.set_questionCount n) j tcs)
            = Some (j, Contribution.set_questionCount n tc)) as ->; [|done].
    apply list_find_Some. split_and!.
    + by rewrite list_lookup_alter_eq, Hj.
    + done.
    + intros k y Hk Hlt. rewrite list_lookup_alter_ne in Hk by lia. eauto.
  - apply list_find_None in Hfind.
    set (entry := Contribution.mk _ _ _).
    assert (list_find
              (fun tc => Contribution.teacherId tc = Teacher._id teacher)
              (tcs ++ [entry])
            = Some (length tcs, entry)) as ->; [|done].
    apply list_find_Some. split_and!.
    + by rewrite lookup_app_r, Nat.sub_diag.
    + done.
    + intros k y Hk Hlt. rewrite lookup_app_l in Hk by done.
      eapply Forall_lookup in Hfind; eauto.
Qed.

Lemma upsertContribution_idemp teacher n tcs :
  upsertContribution teacher n (upsertContribution teacher n tcs)
  = upsertContribution teacher n tcs.
Proof.
  pose proof (ledgerEntry_upsert teacher n tcs) as Hentry.
  unfold ledgerEntry in Hentry.
  set (tcs' := upsertContribution teacher n tcs) in *.
  unfold upsertContribution at 1. fold tcs'.
  destruct (list_find _ tcs') as [[j tc]|] eqn:Hfind; [|done].
  simpl in Hentry. apply list_find_Some in Hfind as (Hj & _ & _).
  apply list_eq. intros k. destruct (decide (k = j)) as [->|Hne].
  - rewrite list_lookup_alter_eq, Hj. simpl. f_equal.
    destruct tc as [tid name cnt]. simpl in *.
    unfold Contribution.set_questionCount. simpl. congruence.
  - by rewrite list_lookup_alter_ne.
Qed.

(** ** The total *)

Lemma foldl_questionCount acc subjects :
  foldl (fun total subject => total + Subject.questionCount subject) acc
        subjects
  = acc + sumQuestionCounts subjects.
Proof.
  revert acc. induction subjects as [|s rest IH]; intros acc; simpl; [lia|].
  rewrite IH. lia.
Qed.

Lemma totalQuestions_updateTotal event :
  JambEvent.totalQuestions (updateTotal event)
  = sumQuestionCounts (JambEvent.subjects event).
Proof. unfold updateTotal. simpl. by rewrite foldl_questionCount. Qed.

(** ** The two completeness tests agree *)

Lemma allSubjectsComplete_true event :
  allSubjectsComplete event = true
  <-> Forall (fun s => JambEvent.questionsPerSubject event
                       <= Subject.questionCount s)
             (JambEvent.subjects event).
Proof.
  unfold allSubjectsComplete.
  induction (JambEvent.subjects event) as [|s l IH]; simpl.
  - split; [constructor|done].
  - rewrite andb_true_iff, Forall_cons, IH, Z.geb_le. tauto.
Qed.

Lemma allSubjectsComplete_false event :
  allSubjectsComplete event = false
  <-> Exists (belowQuota event) (JambEvent.subjects event).
Proof.
  unfold allSubjectsComplete, belowQuota.
  induction (JambEvent.subjects event) as [|s l IH]; simpl.
  - split; [done|by intros H; inversion H].
  - rewrite andb_false_iff, Exists_cons, IH, Z.geb_leb, Z.leb_gt. tauto.
Qed.

Lemma incompleteSubjects_nil event :
  incompleteSubjects event = []
  <-> Forall (fun s => JambEvent.questionsPerSubject event
                       <= Subject.questionCount s)
             (JambEvent.subjects event).
Proof.
  unfold incompleteSubjects. rewrite Forall_forall. split.
  - intros H s Hs.
    destruct (decide (Subject.questionCount s
                      < JambEvent.questionsPerSubject event)) as [Hlt|]; [|lia].
    exfalso. eapply filter_nil_not_elem_of; [exact H| |exact Hs]. exact Hlt.
  - intros H. induction (JambEvent.subjects event) as [|s l IH]; [done|].
    rewrite filter_cons_False.
    + apply IH. intros s' Hs'. apply H. by right.
    + assert (s ∈ s :: l) as Hs by left. apply H in Hs. lia.
Qed.

Lemma canPublish_true event :
  canPublish event = true
  <-> Forall (fun s => JambEvent.questionsPerSubject event
                       <= Subject.questionCount s)
             (JambEvent.subjects event).
Proof.
  rewrite <- incompleteSubjects_nil. unfold canPublish.
  rewrite negb_true_iff, bool_decide_eq_false.
  destruct (incompleteSubjects event); simpl; split; intros; try done; lia.
Qed.

Lemma canPublish_allSubjectsComplete event :
  canPublish event = allSubjectsComplete event.
Proof.
  apply eq_true_iff_eq.
  by rewrite canPublish_true, allSubjectsComplete_true.
Qed.

(** ** The document saved by a contribution *)

Lemma subjects_checkCompleted event :
  JambEvent.subjects (checkCompleted event) = JambEvent.subjects event.
Proof. unfold checkCompleted. by destruct (_ && _). Qed.

Lemma questionsPerSubject_checkCompleted event :
  JambEvent.questionsPerSubject (checkCompleted event)
  = JambEvent.questionsPerSubject event.
Proof. unfold checkCompleted. by destruct (_ && _). Qed.

Lemma totalQuestions_checkCompleted event :
  JambEvent.totalQuestions (checkCompleted event)
  = JambEvent.totalQuestions event.
Proof. unfold checkCompleted. by destruct (_ && _). Qed.

Lemma allSubjectsComplete_ext event event' :
  JambEvent.subjects event = JambEvent.subjects event' ->
  JambEvent.questionsPerSubject event = JambEvent.questionsPerSubject event' ->
  allSubjectsComplete event = allSubjectsComplete event'.
Proof. unfold allSubjectsComplete. by intros -> ->. Qed.

Lemma subjects_savedEvent teacher i questions newQuestions event :
  JambEvent.subjects (savedEvent teacher i questions newQuestions event)
  = alter (replacedSubject teacher (Z.of_nat (length questions)) newQuestions)
          i (JambEvent.subjects event).
Proof.
  unfold savedEvent, applyBatch. rewrite subjects_checkCompleted.
  unfold updateTotal, recordContribution, pushQuestions, removeExisting,
    onSubject. simpl. rewrite !list_alter_alter_eq.
  apply list_alter_ext; [|done]. by intros [name qs cnt tcs] _.
Qed.

Lemma questionsPerSubject_savedEvent teacher i questions newQuestions event :
  JambEvent.questionsPerSubject
    (savedEvent teacher i questions newQuestions event)
  = JambEvent.questionsPerSubject event.
Proof.
  unfold savedEvent, applyBatch. by rewrite questionsPerSubject_checkCompleted.
Qed.

Lemma totalQuestions_savedEvent teacher i questions newQuestions event :
  JambEvent.totalQuestions (savedEvent teacher i questions newQuestions event)
  = sumQuestionCounts
      (JambEvent.subjects (savedEvent teacher i questions newQuestions event)).
Proof.
  unfold savedEvent, applyBatch.
  by rewrite totalQuestions_checkCompleted, subjects_checkCompleted,
    totalQuestions_updateTotal.
Qed.

Lemma hostId_savedEvent teacher i questions newQuestions event :
  JambEvent.hostId (savedEvent teacher i questions newQuestions event)
  = JambEvent.hostId event.
Proof.
  unfold savedEvent, applyBatch, checkCompleted. by destruct (_ && _).
Qed.

(** The status a successful call saves: [completed] exactly when every
    slot of the saved document meets the quota. *)
Lemma status_savedEvent teacher i questions newQuestions event :
  JambEvent.status event = active ->
  JambEvent.status (savedEvent teacher i questions newQuestions event)
  = if allSubjectsComplete
         (savedEvent teacher i questions newQuestions event)
    then completed else active.
Proof.
  intros Hactive. unfold savedEvent, applyBatch.
  set (e := updateTotal _).
  assert (JambEvent.status e = active) as He by done.
  rewrite (allSubjectsComplete_ext (checkCompleted e) e)
    by auto using subjects_checkCompleted, questionsPerSubject_checkCompleted.
  unfold checkCompleted. rewrite He, bool_decide_eq_true_2, andb_true_r by done.
  by destruct (allSubjectsComplete e).
Qed.

Lemma findSubject_lookup teacher event i slot :
  findSubject teacher event = Some (i, slot) ->
  JambEvent.subjects event !! i = Some slot
  ∧ Subject.subject slot = Teacher.subject teacher.
Proof. intros (? & ? & _)%list_find_Some. done. Qed.

(** The teacher's slot keeps its place and its name, so it is found again
    in the saved document. *)
Lemma findSubject_savedEvent teacher i slot questions newQuestions event :
  findSubject teacher event = Some (i, slot) ->
  findSubject teacher (savedEvent teacher i questions newQuestions event)
  = Some (i, replacedSubject teacher (Z.of_nat (length questions))
                newQuestions slot).
Proof.
  unfold findSubject. rewrite subjects_savedEvent.
  intros (Hi & Hname & Hfirst)%list_find_Some.
  apply list_find_Some. split_and!.
  - by rewrite list_lookup_alter_eq, Hi.
  - done.
  - intros j s Hj Hlt. rewrite list_lookup_alter_ne in Hj by lia. eauto.
Qed.

Lemma subjectQuestionCount_savedEvent teacher i slot questions newQuestions
    event :
  JambEvent.subjects event !! i = Some slot ->
  subjectQuestionCount i (savedEvent teacher i questions newQuestions event)
  = Z.of_nat (length (otherQuestions teacher (Subject.questions slot)
                      ++ newQuestions)).
Proof.
  intros Hi. unfold subjectQuestionCount.
  by rewrite subjects_savedEvent, list_lookup_alter_eq, Hi.
Qed.

(** ** The outcomes of a contribution call *)

Lemma contribute_saved db req db' n t st :
  contribute db req = (db', QuestionsSaved n t st) ->
  ∃ questions event i slot newQuestions,
    contribute_questions req = Some questions
    ∧ questions ≠ []
    ∧ db !! contribute_eventId req = Some event
    ∧ JambEvent.status event = active
    ∧ findSubject (contribute_teacher req) event = Some (i, slot)
    ∧ Js.mapThrows (newQuestion (contribute_teacher req)) questions
      = inr newQuestions
    ∧ let saved :=
        savedEvent (contribute_teacher req) i questions newQuestions event in
      db' = <[contribute_eventId req := saved]> db
      ∧ n = Z.of_nat (length questions)
      ∧ t = subjectQuestionCount i saved
      ∧ st = JambEvent.status saved.
Proof.
  unfold contribute.
  destruct (contribute_questions req) as [[|q qs]|] eqn:Hqs; try done.
  destruct (db !! contribute_eventId req) as [event|] eqn:Hev; [|done].
  case_decide as Hst; [done|].
  destruct (findSubject _ event) as [[i slot]|] eqn:Hfind; [|done].
  destruct (Js.mapThrows _ (q :: qs)) as [m|newQuestions] eqn:Hmap; [done|].
  intros [= <- <- <- <-].
  exists (q :: qs), event, i, slot, newQuestions.
  destruct (decide (JambEvent.status event = active)); done.
Qed.

Lemma contribute_accepts db req questions event i slot :
  contribute_questions req = Some questions ->
  validBatch questions = true ->
  db !! contribute_eventId req = Some event ->
  JambEvent.status event = active ->
  findSubject (contribute_teacher req) event = Some (i, slot) ->
  ∃ newQuestions,
    Js.mapThrows (newQuestion (contribute_teacher req)) questions
    = inr newQuestions
    ∧ let saved :=
        savedEvent (contribute_teacher req) i questions newQuestions event in
      contribute db req
      = (<[contribute_eventId req := saved]> db,
         QuestionsSaved (Z.of_nat (length questions))
           (subjectQuestionCount i saved) (JambEvent.status saved)).
Proof.
  intros Hqs Hvalid Hev Hst Hfind. unfold validBatch in Hvalid.
  apply andb_true_iff in Hvalid as [Hne%bool_decide_eq_true Hall].
  destruct (mapThrows_newQuestion_valid (contribute_teacher req) _ Hall)
    as [newQuestions Hmap].
  exists newQuestions. split; [done|]. unfold contribute.
  rewrite Hqs. destruct questions as [|q qs]; [done|].
  rewrite Hev. case_decide; [done|]. by rewrite Hfind, Hmap.
Qed.

(** A call that does not answer [QuestionsSaved] answers with an error and
    never reaches [event.save()]. *)
Lemma contribute_rejects db req :
  (∃ n t st, (contribute db req).2 = QuestionsSaved n t st)
  ∨ (∃ code error details,
       contribute db req = (db, JsonError code error details)).
Proof.
  unfold contribute.
  destruct (contribute_questions req) as [[|q qs]|]; [right; eauto| |right; eauto].
  destruct (db !! contribute_eventId req) as [event|]; [|right; eauto].
  case_decide; [right; eauto|].
  destruct (findSubject _ event) as [[i slot]|]; [|right; eauto].
  destruct (Js.mapThrows _ (q :: qs)); [right; eauto|left; simpl; eauto].
Qed.

(** A call on an event that is not active saves nothing. *)
Lemma contribute_not_active db req event :
  db !! contribute_eventId req = Some event ->
  JambEvent.status event ≠ active ->
  (contribute db req).1 = db.
Proof.
  intros Hev Hst.
  destruct (contribute_rejects db req)
    as [(n & t & st & Hok)|(code & error & details & ->)]; [|done].
  destruct (contribute db req) as [db' resp] eqn:Hcall. simpl in Hok.
  subst resp.
  apply contribute_saved in Hcall
    as (_ & event' & _ & _ & _ & _ & _ & Hev' & Hactive & _).
  congruence.
Qed.

(** ** Lookup in an altered sequence of slots *)

Lemma Forall_alter_subject (P : Subject.t -> Prop) f i slot
    (subjects : list Subject.t) :
  subjects !! i = Some slot ->
  P (f slot) ->
  (∀ j s, j ≠ i -> subjects !! j = Some s -> P s) ->
  Forall P (alter f i subjects).
Proof.
  intros Hi Hslot Hrest. apply Forall_lookup. intros j s Hj.
  destruct (decide (j = i)) as [->|Hne].
  - rewrite list_lookup_alter_eq, Hi in Hj. by injection Hj as <-.
  - rewrite list_lookup_alter_ne in Hj by done. eauto.
Qed.

(** ** The saved document, field by field *)

Lemma savedEvent_fields teacher i questions newQuestions event :
  savedEvent teacher i questions newQuestions event
  = let subjects :=
      alter (replacedSubject teacher (Z.of_nat (length questions)) newQuestions)
            i (JambEvent.subjects event) in
    JambEvent.mk (JambEvent.title event) (JambEvent.description event)
      (JambEvent.timeLimit event) (JambEvent.questionsPerSubject event)
      (JambEvent.deadline event)
      (if allSubjectsComplete
            (savedEvent teacher i questions newQuestions event)
          && bool_decide (JambEvent.status event = active)
       then completed else JambEvent.status event)
      (JambEvent.hostId event) (JambEvent.shareId event) subjects
      (sumQuestionCounts subjects).
Proof.
  simpl. rewrite <- subjects_savedEvent.
  rewrite <- (totalQuestions_savedEvent teacher i questions newQuestions event).
  unfold savedEvent, applyBatch.
  set (e := updateTotal _).
  rewrite (allSubjectsComplete_ext (checkCompleted e) e)
    by auto using subjects_checkCompleted, questionsPerSubject_checkCompleted.
  assert (JambEvent.status e = JambEvent.status event) as Hst by done.
  assert (JambEvent.title e = JambEvent.title event) as <- by done.
  assert (JambEvent.description e = JambEvent.description event) as <- by done.
  assert (JambEvent.timeLimit e = JambEvent.timeLimit event) as <- by done.
  assert (JambEvent.questionsPerSubject e
          = JambEvent.questionsPerSubject event) as <- by done.
  assert (JambEvent.deadline e = JambEvent.deadline event) as <- by done.
  assert (JambEvent.hostId e = JambEvent.hostId event) as <- by done.
  assert (JambEvent.shareId e = JambEvent.shareId event) as <- by done.
  rewrite <- Hst. clearbody e. unfold checkCompleted.
  destruct (allSubjectsComplete e && _); by destruct e.
Qed.

Lemma replacedSubject_idemp teacher n newQuestions s :
  Forall (fun y => Question.teacherId y = Some (Teacher._id teacher))
         newQuestions ->
  replacedSubject teacher n newQuestions
    (replacedSubject teacher n newQuestions s)
  = replacedSubject teacher n newQuestions s.
Proof.
  intros H. unfold replacedSubject. simpl.
  by rewrite otherQuestions_replaced, upsertContribution_idemp.
Qed.

(** Saving the same batch on top of a saved document that stayed active
    gives that document back. *)
Lemma savedEvent_idemp teacher i questions newQuestions event :
  Forall (fun y => Question.teacherId y = Some (Teacher._id teacher))
         newQuestions ->
  JambEvent.status event = active ->
  JambEvent.status (savedEvent teacher i questions newQuestions event)
  = active ->
  savedEvent teacher i questions newQuestions
    (savedEvent teacher i questions newQuestions event)
  = savedEvent teacher i questions newQuestions event.
Proof.
  intros Hnew Hactive Hstill.
  set (saved := savedEvent teacher i questions newQuestions event) in *.
  assert (Hsubjects :
    JambEvent.subjects (savedEvent teacher i questions newQuestions saved)
    = JambEvent.subjects saved).
  { rewrite subjects_savedEvent. unfold saved at 1.
    rewrite subjects_savedEvent, list_alter_alter_eq.
    unfold saved. rewrite subjects_savedEvent.
    apply list_alter_ext; [|done]. intros s _. simpl.
    by apply replacedSubject_idemp. }
  assert (Hincomplete : allSubjectsComplete saved = false).
  { unfold saved in *. rewrite status_savedEvent in Hstill by done.
    by destruct (allSubjectsComplete _). }
  rewrite (savedEvent_fields teacher i questions newQuestions saved).
  rewrite <- subjects_savedEvent. cbv zeta.
  rewrite (allSubjectsComplete_ext _ saved Hsubjects
             (questionsPerSubject_savedEvent _ _ _ _ _)).
  rewrite Hincomplete, Hsubjects. simpl.
  assert (sumQuestionCounts (JambEvent.subjects saved)
          = JambEvent.totalQuestions saved) as ->.
  { unfold saved. by rewrite <- totalQuestions_savedEvent. }
  by destruct saved.
Qed.

(** ** The caches along a run *)

Lemma cachesAgree_newEvent host shareId body :
  cachesAgree (newEvent host shareId body).
Proof. split; [done|]. unfold newEvent. simpl. repeat constructor. Qed.

Lemma cachesAgree_savedEvent teacher i questions newQuestions event :
  cachesAgree event ->
  cachesAgree (savedEvent teacher i questions newQuestions event).
Proof.
  intros [_ Hslots]. split; [apply totalQuestions_savedEvent|].
  rewrite subjects_savedEvent. apply Forall_lookup. intros j s Hj.
  rewrite list_lookup_alter in Hj. case_decide as Hij.
  - destruct (JambEvent.subjects event !! i); [|done].
    by injection Hj as <-.
  - eapply Forall_lookup in Hslots; eauto.
Qed.

Lemma publishAssignments_foldl event :
  foldl (fun ev st => JambEvent.set_status st ev) event
        (publishAssignments event)
  = JambEvent.set_status published event.
Proof. unfold publishAssignments. by case_decide. Qed.

Lemma findOwned_Some db req event :
  findOwned db req = Some event
  <-> db !! host_eventId req = Some event
      ∧ JambEvent.hostId event = host_id req.
Proof.
  unfold findOwned. destruct (db !! host_eventId req) as [e|].
  - case_decide as Hhost; split.
    + by intros [= <-].
    + by intros [[= <-] _].
    + done.
    + intros [[= <-] H]. by destruct Hhost.
  - split; [done|by intros [? _]].
Qed.

Lemma publishEvent_published db req db' :
  publishEvent db req = (db', EventPublished) ->
  ∃ event,
    db !! host_eventId req = Some event
    ∧ JambEvent.hostId event = host_id req
    ∧ canPublish event = true
    ∧ db' = <[host_eventId req := JambEvent.set_status published event]> db.
Proof.
  unfold publishEvent.
  destruct (findOwned db req) as [event|] eqn:Hfind; [|done].
  apply findOwned_Some in Hfind as [Hev Hhost].
  destruct (bool_decide _) eqn:Hgate; [done|].
  rewrite publishAssignments_foldl. intros [= <-].
  exists event. unfold canPublish. rewrite Hgate. by split_and!.
Qed.

Lemma step_cachesAgree db db' :
  step db db' ->
  map_Forall (fun _ event => cachesAgree event) db ->
  map_Forall (fun _ event => cachesAgree event) db'.
Proof.
  intros Hstep Hinv. destruct Hstep as [db host body newId shareId Hfresh
                                       |db req|db req|db req].
  - unfold createEvent. destruct (validEvent body); [|done].
    simpl. apply map_Forall_insert_2; [apply cachesAgree_newEvent|done].
  - unfold publishEvent.
    destruct (findOwned db req) as [event|] eqn:Hfind; [|done].
    apply findOwned_Some in Hfind as [Hev _].
    destruct (bool_decide _); [done|]. simpl.
    apply map_Forall_insert_2; [|done].
    rewrite publishAssignments_foldl. by apply (Hinv _ _ Hev).
  - unfold deleteEvent. destruct (findOwned db req); [|done].
    simpl. by apply map_Forall_delete.
  - destruct (contribute_rejects db req)
      as [(n & t & st & Hok)|(code & error & details & ->)]; [|done].
    destruct (contribute db req) as [db' resp] eqn:Hcall.
    simpl in Hok. subst resp.
    apply contribute_saved in Hcall
      as (qs & event & i & slot & newQs & _ & _ & Hev & _ & _ & _ & -> & _).
    simpl. apply map_Forall_insert_2; [|done].
    apply cachesAgree_savedEvent. by apply (Hinv _ _ Hev).
Qed.

Lemma reachable_cachesAgree db :
  reachable db -> map_Forall (fun _ event => cachesAgree event) db.
Proof.
  induction 1 as [|db db' _ IH Hstep]; [apply map_Forall_empty|].
  eauto using step_cachesAgree.
Qed.

(** ** Published events stay published *)

Lemma step_published db db' id event :
  step db db' ->
  db !! id = Some event ->
  JambEvent.status event = published ->
  db' !! id = None
  ∨ ∃ event', db' !! id = Some event'
              ∧ JambEvent.status event' = published.
Proof.
  intros Hstep Hev Hpub.
  destruct Hstep as [db host body newId shareId Hfresh|db req|db req|db req].
  - right. unfold createEvent. destruct (validEvent body); [|eauto].
    simpl. exists event. split; [|done].
    rewrite lookup_insert_ne; [done|]. intros ->. congruence.
  - right. unfold publishEvent.
    destruct (findOwned db req) as [e|] eqn:Hfind; [|eauto].
    apply findOwned_Some in Hfind as [He _].
    destruct (bool_decide _); [eauto|]. simpl.
    rewrite publishAssignments_foldl.
    destruct (decide (host_eventId req = id)) as [->|Hne].
    + rewrite lookup_insert_eq. eauto.
    + rewrite lookup_insert_ne by done. eauto.
  - unfold deleteEvent. destruct (findOwned db req); [|eauto]. simpl.
    destruct (decide (host_eventId req = id)) as [->|Hne].
    + left. apply lookup_delete_eq.
    + right. rewrite lookup_delete_ne by done. eauto.
  - right. destruct (decide (contribute_eventId req = id)) as [Heq|Hne].
    + rewrite (contribute_not_active db req event); subst; eauto.
      congruence.
    + destruct (contribute_rejects db req)
        as [(n & t & st & Hok)|(code & error & details & ->)]; [|eauto].
      destruct (contribute db req) as [db' resp] eqn:Hcall.
      simpl in Hok. subst resp.
      apply contribute_saved in Hcall
        as (qs & e & i & slot & newQs & _ & _ & _ & _ & _ & _ & -> & _).
      simpl. rewrite lookup_insert_ne by done. eauto.
Qed.

(** ** The host middleware *)

Lemma authenticateHost_rejects verify hosts token :
  ∃ message,
    authenticateHost verify hosts token = inl (JsonError 401 message None)
    ∧ (message = "No host token provided"
       ∨ message = "Invalid host token"
       ∨ message = "Host not found").
Proof.
  unfold authenticateHost. destruct token as [token|]; [|eauto].
  case_decide; [eauto|].
  destruct (verify token) as [[hostId|]|]; [|eauto..].
  case_decide; [|eauto]. unfold assignHost, Js.throw. eauto.
Qed.

Lemma authenticateHost_valid_token verify hosts token host :
  token ≠ "" ->
  verify token = Some (Some host) ->
  host ∈ hosts ->
  authenticateHost verify hosts (Some token)
  = inl (JsonError 401 "Invalid host token" None).
Proof.
  intros Htoken Hverify Hhost. unfold authenticateHost.
  rewrite decide_False by done. rewrite Hverify.
  by rewrite decide_True by done.
Qed.

Lemma behindAuthenticateHost_rejects verify hosts token db handler :
  ∃ message,
    behindAuthenticateHost verify hosts token db handler
    = (db, JsonError 401 message None)
    ∧ (message = "No host token provided"
       ∨ message = "Invalid host token"
       ∨ message = "Host not found").
Proof.
  unfold behindAuthenticateHost.
  destruct (authenticateHost_rejects verify hosts token) as (m & -> & Hm).
  eauto.
Qed.

Lemma behindAuthenticateHost_valid_token verify hosts token host db handler :
  token ≠ "" ->
  verify token = Some (Some host) ->
  host ∈ hosts ->
  behindAuthenticateHost verify hosts (Some token) db handler
  = (db, JsonError 401 "Invalid host token" None).
Proof.
  intros Htoken Hverify Hhost. unfold behindAuthenticateHost.
  by rewrite (authenticateHost_valid_token verify hosts token host).
Qed.

(** * The claims *)

(** C4 (atomicity of a contribution).  A call that fails, whether because
    the batch is missing or empty, the event does not exist, the event is
    not active, the teacher's subject has no slot, or some item of the batch
    fails validation, answers with an error and leaves the stored
    collection exactly as it was: nothing of the in-memory replacement is
    saved. *)
Theorem contribute_failure_atomic db req db' resp :
  contribute db req = (db', resp) ->
  (contribute_questions req = None
   ∨ contribute_questions req = Some []
   ∨ db !! contribute_eventId req = None
   ∨ (∃ event, db !! contribute_eventId req = Some event
               ∧ (JambEvent.status event ≠ active
                  ∨ findSubject (contribute_teacher req) event = None))
   ∨ (∃ questions q, contribute_questions req = Some questions
                     ∧ q ∈ questions ∧ validQuestion q = false)
   ∨ (∀ n t st, resp ≠ QuestionsSaved n t st)) ->
  db' = db ∧ ∃ code error details, resp = JsonError code error details.
Proof.
  intros Hcall Hcause.
  destruct (contribute_rejects db req) as [(n & t & st & Hok)|Herr].
  - exfalso. rewrite Hcall in Hok. simpl in Hok. subst resp.
    apply contribute_saved in Hcall
      as (qs & event & i & slot & newQs & Hqs & Hne & Hev & Hst & Hfind
          & Hmap & _).
    destruct Hcause as [H|[H|[H|[(ev & Hev' & H)|[(qs' & q & Hqs' & Hq & Hbad)|H]]]]].
    + congruence.
    + congruence.
    + congruence.
    + rewrite Hev in Hev'. injection Hev' as <-. destruct H; congruence.
    + rewrite Hqs in Hqs'. injection Hqs' as <-.
      destruct (newQuestion_invalid (contribute_teacher req) q Hbad) as [m Hm].
      destruct (mapThrows_elem_inl _ _ _ _ Hq Hm) as [m' Hm']. congruence.
    + by eapply H.
  - destruct Herr as (code & error & details & Herr).
    rewrite Herr in Hcall. injection Hcall as <- <-. eauto.
Qed.

Lemma contribute_failure_atomic_witness :
  (contribute (Scenario.created 2)
     (Scenario.request Scenario.ada [Scenario.item "x" 0; Scenario.threeOptions])).1
  = Scenario.created 2.
Proof.
  eapply (contribute_failure_atomic (Scenario.created 2)
            (Scenario.request Scenario.ada
               [Scenario.item "x" 0; Scenario.threeOptions])).
  - apply surjective_pairing.
  - do 4 right. left. exists [Scenario.item "x" 0; Scenario.threeOptions],
      Scenario.threeOptions. split_and!; [reflexivity| |reflexivity].
    apply list_elem_of_In. simpl. auto.
Defined.

(** C7 (active-only contribution), as the handler orders its guards.  For
    an event whose status is [completed] or [published], every contribution
    call is rejected and the collection is unchanged; the rejection is the
    lifecycle error "Event is not active for contributions" whenever the
    batch is a non-empty array, and "No questions provided" when the batch
    is missing or empty, because that guard runs before the event is
    loaded. *)
Theorem contribute_inactive_rejected db req event :
  db !! contribute_eventId req = Some event ->
  JambEvent.status event ≠ active ->
  contribute db req
  = (db,
     JsonError 400
       match contribute_questions req with
       | Some (_ :: _) => "Event is not active for contributions"
       | _ => "No questions provided"
       end None).
Proof.
  intros Hev Hst. unfold contribute.
  destruct (contribute_questions req) as [[|q qs]|]; [done| |done].
  rewrite Hev. by case_decide.
Qed.

Lemma contribute_inactive_rejected_witness :
  contribute (Scenario.allDone 1)
    (Scenario.request Scenario.ada [Scenario.item "late" 0])
  = (Scenario.allDone 1,
     JsonError 400 "Event is not active for contributions" None).
Proof.
  apply (contribute_inactive_rejected (Scenario.allDone 1)
           (Scenario.request Scenario.ada [Scenario.item "late" 0])
           (Scenario.stored (Scenario.allDone 1))).
  - vm_compute. reflexivity.
  - vm_compute. discriminate.
Defined.

(** C7, the claim as it was stated, fails: on a completed event a call
    with an empty batch is answered "No questions provided", which is not
    the lifecycle error. *)
Lemma contribute_inactive_empty_batch :
  (JambEvent.status <$> Scenario.allDone 1 !! Scenario.eventId) = Some completed
  ∧ contribute (Scenario.allDone 1) (Scenario.request Scenario.ada [])
    = (Scenario.allDone 1, JsonError 400 "No questions provided" None)
  ∧ (contribute (Scenario.allDone 1) (Scenario.request Scenario.ada [])).2
    ≠ JsonError 400 "Event is not active for contributions" None.
Proof. split_and!; [vm_compute; reflexivity|reflexivity|discriminate]. Qed.

(** C2 (automatic completion inside the contribution call).  When a call
    succeeds, the event it loaded was active, and the document it saves
    has status [completed] if every slot of that document meets the quota
    and status [active] if some slot is still below it; the response
    reports the same status. *)
Theorem contribute_completes_in_same_call db req db' n t st :
  contribute db req = (db', QuestionsSaved n t st) ->
  ∃ event saved,
    db !! contribute_eventId req = Some event
    ∧ JambEvent.status event = active
    ∧ db' !! contribute_eventId req = Some saved
    ∧ st = JambEvent.status saved
    ∧ (Forall (fun s => JambEvent.questionsPerSubject saved
                        <= Subject.questionCount s)
              (JambEvent.subjects saved) ->
       JambEvent.status saved = completed)
    ∧ (Exists (belowQuota saved) (JambEvent.subjects saved) ->
       JambEvent.status saved = active).
Proof.
  intros (qs & event & i & slot & newQs & Hqs & Hne & Hev & Hst & Hfind
          & Hmap & Hdb & Hn & Ht & Hstatus)%contribute_saved.
  set (saved := savedEvent _ _ _ _ _) in *.
  exists event, saved. split_and!; try done.
  - subst db'. apply lookup_insert_eq.
  - intros Hall%allSubjectsComplete_true. unfold saved in *.
    by rewrite status_savedEvent, Hall.
  - intros Hshort%allSubjectsComplete_false. unfold saved in *.
    by rewrite status_savedEvent, Hshort.
Qed.

Lemma contribute_completes_in_same_call_witness :
  ∃ event saved,
    Scenario.othersDone 2 !! Scenario.eventId = Some event
    ∧ JambEvent.status event = active
    ∧ Scenario.allDone 2 !! Scenario.eventId = Some saved
    ∧ completed = JambEvent.status saved
    ∧ (Forall (fun s => JambEvent.questionsPerSubject saved
                        <= Subject.questionCount s)
              (JambEvent.subjects saved) ->
       JambEvent.status saved = completed)
    ∧ (Exists (belowQuota saved) (JambEvent.subjects saved) ->
       JambEvent.status saved = active).
Proof.
  apply (contribute_completes_in_same_call (Scenario.othersDone 2)
           (Scenario.request Scenario.ada (Scenario.batchOf 2))
           (Scenario.allDone 2) 2 2 completed).
  vm_compute. reflexivity.
Defined.

(** C10 (no upper bound on the size of a batch).  On an active event whose
    slots include the teacher's subject, every non-empty batch of valid
    items is accepted, whatever its length.  The slot's question count
    after the call is at least the length of the batch, so a batch longer
    than the quota leaves the slot above the quota; and when every other
    slot meets the quota and the batch is at least as long as the quota,
    the call saves the event as [completed]. *)
Theorem contribute_no_upper_bound db req questions event i slot :
  contribute_questions req = Some questions ->
  validBatch questions = true ->
  db !! contribute_eventId req = Some event ->
  JambEvent.status event = active ->
  findSubject (contribute_teacher req) event = Some (i, slot) ->
  ∃ db' t st saved slot',
    contribute db req
    = (db', QuestionsSaved (Z.of_nat (length questions)) t st)
    ∧ db' !! contribute_eventId req = Some saved
    ∧ JambEvent.subjects saved !! i = Some slot'
    ∧ Subject.questionCount slot' = t
    ∧ st = JambEvent.status saved
    ∧ Z.of_nat (length questions) <= t
    ∧ (JambEvent.questionsPerSubject event < Z.of_nat (length questions) ->
       JambEvent.questionsPerSubject saved < Subject.questionCount slot')
    ∧ ((∀ j s, j ≠ i -> JambEvent.subjects event !! j = Some s ->
               JambEvent.questionsPerSubject event <= Subject.questionCount s) ->
       JambEvent.questionsPerSubject event <= Z.of_nat (length questions) ->
       JambEvent.status saved = completed).
Proof.
  intros Hqs Hvalid Hev Hst Hfind.
  destruct (contribute_accepts db req questions event i slot)
    as (newQs & Hmap & Hcall); try done.
  destruct (findSubject_lookup _ _ _ _ Hfind) as [Hi _].
  set (saved := savedEvent _ _ _ _ _) in *.
  assert (Hlen : length newQs = length questions)
    by eauto using mapThrows_newQuestion_length.
  assert (Hslot : JambEvent.subjects saved !! i
                  = Some (replacedSubject (contribute_teacher req)
                            (Z.of_nat (length questions)) newQs slot)).
  { unfold saved. by rewrite subjects_savedEvent, list_lookup_alter_eq, Hi. }
  assert (Hcount : Z.of_nat (length questions)
                   <= Subject.questionCount
                        (replacedSubject (contribute_teacher req)
                           (Z.of_nat (length questions)) newQs slot)).
  { simpl. rewrite length_app. lia. }
  assert (Ht : subjectQuestionCount i saved
               = Subject.questionCount
                   (replacedSubject (contribute_teacher req)
                      (Z.of_nat (length questions)) newQs slot)).
  { unfold subjectQuestionCount. by rewrite Hslot. }
  eexists _, _, _, saved, _. split_and!.
  - exact Hcall.
  - apply lookup_insert_eq.
  - exact Hslot.
  - by rewrite Ht.
  - done.
  - by rewrite Ht.
  - intros Hlong. unfold saved at 1.
    rewrite questionsPerSubject_savedEvent. lia.
  - intros Hothers Hquota. unfold saved.
    rewrite status_savedEvent by done.
    rewrite (proj2 (allSubjectsComplete_true _)); [done|].
    rewrite subjects_savedEvent, questionsPerSubject_savedEvent.
    eapply Forall_alter_subject; [exact Hi|lia|exact Hothers].
Qed.

Lemma contribute_no_upper_bound_witness :
  ∃ db' t st,
    contribute (Scenario.othersDone 2)
      (Scenario.request Scenario.ada (Scenario.batchOf 3))
    = (db', QuestionsSaved 3 t st)
    ∧ 3 <= t.
Proof.
  destruct (contribute_no_upper_bound (Scenario.othersDone 2)
              (Scenario.request Scenario.ada (Scenario.batchOf 3))
              (Scenario.batchOf 3) (Scenario.stored (Scenario.othersDone 2))
              0%nat (emptySubject "Mathematics"))
    as (db' & t & st & saved & slot' & Hcall & _ & _ & _ & _ & Hle & _).
  - reflexivity.
  - reflexivity.
  - vm_compute. reflexivity.
  - vm_compute. reflexivity.
  - vm_compute. reflexivity.
  - exists db', t, st. split; [exact Hcall|exact Hle].
Defined.

(** C1 (a resubmission replaces), as the status guard allows it.  On an
    active event with a slot for the teacher's subject, let the teacher
    submit a valid batch A and then a valid batch B.  If the event is still
    active after the first call, the second call succeeds, and in the
    teacher's slot the questions attributed to the teacher are exactly the
    questions built from B, in order: none of A's are left.  The questions
    of the other teachers stay where they were. *)
Theorem contribute_resubmission_replaces db eventId teacher batchA batchB
    event i slot :
  db !! eventId = Some event ->
  JambEvent.status event = active ->
  findSubject teacher event = Some (i, slot) ->
  validBatch batchA = true ->
  validBatch batchB = true ->
  (JambEvent.status
     <$> (contribute db (mkContributeRequest eventId teacher (Some batchA))).1
         !! eventId) = Some active ->
  ∃ db2 t st saved slot2 newB,
    contribute
      (contribute db (mkContributeRequest eventId teacher (Some batchA))).1
      (mkContributeRequest eventId teacher (Some batchB))
    = (db2, QuestionsSaved (Z.of_nat (length batchB)) t st)
    ∧ Js.mapThrows (newQuestion teacher) batchB = inr newB
    ∧ db2 !! eventId = Some saved
    ∧ findSubject teacher saved = Some (i, slot2)
    ∧ existingQuestions teacher (Subject.questions slot2) = newB
    ∧ otherQuestions teacher (Subject.questions slot2)
      = otherQuestions teacher (Subject.questions slot).
Proof.
  intros Hev Hst Hfind HA HB Hstill.
  destruct (contribute_accepts db
              (mkContributeRequest eventId teacher (Some batchA))
              batchA event i slot) as (newA & HmapA & HcallA); try done.
  simpl in HmapA, HcallA. rewrite HcallA in *. simpl in *.
  set (saved1 := savedEvent teacher i batchA newA event) in *.
  rewrite lookup_insert_eq in Hstill. injection Hstill as Hstill.
  pose proof (findSubject_savedEvent teacher i slot batchA newA event Hfind)
    as Hfind1. fold saved1 in Hfind1.
  destruct (contribute_accepts (<[eventId := saved1]> db)
              (mkContributeRequest eventId teacher (Some batchB))
              batchB saved1 i
              (replacedSubject teacher (Z.of_nat (length batchA)) newA slot))
    as (newB & HmapB & HcallB);
    [done|done|apply lookup_insert_eq|done|exact Hfind1|].
  simpl in HmapB, HcallB.
  pose proof (mapThrows_newQuestion_teacherId _ _ _ HmapA) as HnewA.
  pose proof (mapThrows_newQuestion_teacherId _ _ _ HmapB) as HnewB.
  eexists _, _, _, _, _, newB. split_and!.
  - exact HcallB.
  - exact HmapB.
  - apply lookup_insert_eq.
  - by apply findSubject_savedEvent.
  - simpl. by rewrite existingQuestions_replaced.
  - simpl. by rewrite !otherQuestions_replaced.
Qed.

Lemma contribute_resubmission_replaces_witness :
  ∃ db2 t st saved slot2 newB,
    contribute
      (contribute (Scenario.created 2)
         (mkContributeRequest Scenario.eventId Scenario.ada
            (Some (Scenario.batchOf 2)))).1
      (mkContributeRequest Scenario.eventId Scenario.ada
         (Some Scenario.secondBatch))
    = (db2, QuestionsSaved 1 t st)
    ∧ Js.mapThrows (newQuestion Scenario.ada) Scenario.secondBatch = inr newB
    ∧ db2 !! Scenario.eventId = Some saved
    ∧ findSubject Scenario.ada saved = Some (0%nat, slot2)
    ∧ existingQuestions Scenario.ada (Subject.questions slot2) = newB
    ∧ otherQuestions Scenario.ada (Subject.questions slot2)
      = otherQuestions Scenario.ada
          (Subject.questions (emptySubject "Mathematics")).
Proof.
  apply (contribute_resubmission_replaces (Scenario.created 2)
           Scenario.eventId Scenario.ada (Scenario.batchOf 2)
           Scenario.secondBatch (Scenario.stored (Scenario.created 2))
           0%nat (emptySubject "Mathematics")).
  - vm_compute. reflexivity.
  - reflexivity.
  - vm_compute. reflexivity.
  - reflexivity.
  - reflexivity.
  - vm_compute. reflexivity.
Defined.

(** C1, the claim as it was stated, fails when the first batch fills the
    last slot below quota: the event becomes [completed] in the first call,
    the second call is rejected, and the questions of the first batch stay
    attributed to the teacher. *)
Lemma contribute_resubmission_after_completion :
  JambEvent.status (Scenario.stored (Scenario.othersDone 1)) = active
  ∧ findSubject Scenario.ada (Scenario.stored (Scenario.othersDone 1))
    = Some (0%nat, emptySubject "Mathematics")
  ∧ validBatch Scenario.firstBatch = true
  ∧ validBatch Scenario.secondBatch = true
  ∧ (contribute (Scenario.othersDone 1)
       (Scenario.request Scenario.ada Scenario.firstBatch)).2
    = QuestionsSaved 1 1 completed
  ∧ (contribute Scenario.afterFirst
       (Scenario.request Scenario.ada Scenario.secondBatch)).2
    = JsonError 400 "Event is not active for contributions" None
  ∧ Scenario.questionsOf Scenario.ada 0 Scenario.afterSecond
    = Some [Question.mk "first" ["a"; "b"; "c"; "d"] 0 [] []
              (Some 1%nat) (Some "Ada")]
  ∧ Js.mapThrows (newQuestion Scenario.ada) Scenario.secondBatch
    = inr [Question.mk "second" ["a"; "b"; "c"; "d"] 1 [] []
             (Some 1%nat) (Some "Ada")].
Proof. split_and!; vm_compute; reflexivity. Qed.

(** C8 (the ledger is idempotent).  On an active event with a slot for the
    teacher's subject, two calls in a row with the same valid batch by the
    same teacher: the second call leaves the whole stored collection as the
    first call left it, so the slot's question count and the teacher's
    ledger entry are those of the first call, and the ledger entry is the
    length of the batch (not twice the length). *)
Theorem contribute_twice_idempotent db eventId teacher batch event i slot :
  db !! eventId = Some event ->
  JambEvent.status event = active ->
  findSubject teacher event = Some (i, slot) ->
  validBatch batch = true ->
  ∃ saved1 slot1 saved2 slot2,
    (contribute db (mkContributeRequest eventId teacher (Some batch))).1
      !! eventId = Some saved1
    ∧ JambEvent.subjects saved1 !! i = Some slot1
    ∧ (contribute
         (contribute db (mkContributeRequest eventId teacher (Some batch))).1
         (mkContributeRequest eventId teacher (Some batch))).1
      !! eventId = Some saved2
    ∧ JambEvent.subjects saved2 !! i = Some slot2
    ∧ Subject.questionCount slot2 = Subject.questionCount slot1
    ∧ ledgerEntry teacher (Subject.teacherContributions slot1)
      = Some (Z.of_nat (length batch))
    ∧ ledgerEntry teacher (Subject.teacherContributions slot2)
      = Some (Z.of_nat (length batch))
    ∧ (contribute
         (contribute db (mkContributeRequest eventId teacher (Some batch))).1
         (mkContributeRequest eventId teacher (Some batch))).1
      = (contribute db (mkContributeRequest eventId teacher (Some batch))).1.
Proof.
  intros Hev Hst Hfind Hvalid.
  set (req := mkContributeRequest eventId teacher (Some batch)).
  destruct (contribute_accepts db req batch event i slot)
    as (newQs & Hmap & Hcall); try done.
  simpl in Hmap, Hcall. rewrite Hcall. simpl.
  set (saved1 := savedEvent teacher i batch newQs event) in *.
  destruct (findSubject_lookup _ _ _ _ Hfind) as [Hi _].
  pose proof (mapThrows_newQuestion_teacherId _ _ _ Hmap) as Hnew.
  assert (Hslot1 : JambEvent.subjects saved1 !! i
                   = Some (replacedSubject teacher (Z.of_nat (length batch))
                             newQs slot)).
  { unfold saved1. by rewrite subjects_savedEvent, list_lookup_alter_eq, Hi. }
  assert (Hsame : (contribute (<[eventId := saved1]> db) req).1
                  = <[eventId := saved1]> db).
  { destruct (decide (JambEvent.status saved1 = active)) as [Hstill|Hdone].
    - destruct (contribute_accepts (<[eventId := saved1]> db) req batch saved1
                  i (replacedSubject teacher (Z.of_nat (length batch))
                       newQs slot)) as (newQs' & Hmap' & Hcall');
        [done|done|apply lookup_insert_eq|done
        |by apply findSubject_savedEvent|].
      simpl in Hmap', Hcall'. rewrite Hmap in Hmap'. injection Hmap' as <-.
      rewrite Hcall'. simpl. unfold saved1.
      rewrite savedEvent_idemp by done. apply insert_insert_eq.
    - apply (contribute_not_active _ req saved1); [|done].
      apply lookup_insert_eq. }
  rewrite Hsame.
  eexists saved1, _, saved1, _. split_and!.
  - apply lookup_insert_eq.
  - exact Hslot1.
  - apply lookup_insert_eq.
  - exact Hslot1.
  - done.
  - simpl. apply ledgerEntry_upsert.
  - simpl. apply ledgerEntry_upsert.
  - done.
Qed.

Lemma contribute_twice_idempotent_witness :
  (contribute
     (contribute (Scenario.created 2)
        (mkContributeRequest Scenario.eventId Scenario.ada
           (Some (Scenario.batchOf 2)))).1
     (mkContributeRequest Scenario.eventId Scenario.ada
        (Some (Scenario.batchOf 2)))).1
  = (contribute (Scenario.created 2)
       (mkContributeRequest Scenario.eventId Scenario.ada
          (Some (Scenario.batchOf 2)))).1.
Proof.
  destruct (contribute_twice_idempotent (Scenario.created 2)
              Scenario.eventId Scenario.ada (Scenario.batchOf 2)
              (Scenario.stored (Scenario.created 2)) 0%nat
              (emptySubject "Mathematics"))
    as (saved1 & slot1 & saved2 & slot2 & _ & _ & _ & _ & _ & _ & _ & Hsame).
  - vm_compute. reflexivity.
  - reflexivity.
  - vm_compute. reflexivity.
  - reflexivity.
  - exact Hsame.
Defined.

(** C3 (the derived caches).  In every collection the server can reach,
    after a successful contribution call or a successful publish call each
    stored event has [totalQuestions] equal to the sum of the question
    counts of its slots, and each slot's question count equal to the
    length of its sequence of questions. *)
Theorem caches_agree_after_write db db' id saved :
  reachable db ->
  (∃ req n t st, contribute db req = (db', QuestionsSaved n t st))
  ∨ (∃ req, publishEvent db req = (db', EventPublished)) ->
  db' !! id = Some saved ->
  JambEvent.totalQuestions saved = sumQuestionCounts (JambEvent.subjects saved)
  ∧ Forall (fun s => Subject.questionCount s
                     = Z.of_nat (length (Subject.questions s)))
           (JambEvent.subjects saved).
Proof.
  intros Hreach Hcall Hsaved.
  assert (Hstep : step db db').
  { destruct Hcall as [(req & n & t & st & Hcall)|(req & Hcall)].
    - replace db' with (contribute db req).1 by by rewrite Hcall.
      constructor.
    - replace db' with (publishEvent db req).1 by by rewrite Hcall.
      constructor. }
  assert (Hinv : reachable db') by (econstructor; eauto).
  apply reachable_cachesAgree in Hinv. exact (Hinv _ _ Hsaved).
Qed.

Lemma caches_agree_after_write_witness :
  cachesAgree
    (Scenario.stored
       (contribute (Scenario.created 2)
          (Scenario.request Scenario.ada (Scenario.batchOf 2))).1).
Proof.
  apply (caches_agree_after_write (Scenario.created 2)
           (contribute (Scenario.created 2)
              (Scenario.request Scenario.ada (Scenario.batchOf 2))).1
           Scenario.eventId).
  - apply (reachable_step ∅); [constructor|].
    by apply (step_create ∅ Scenario.host
                (EventInput.mk "Mock" None 60 2 0) Scenario.eventId "share").
  - left. exists (Scenario.request Scenario.ada (Scenario.batchOf 2)), 2, 2,
      active. vm_compute. reflexivity.
  - vm_compute. reflexivity.
Defined.



(** C9 (publish succeeds, also straight from [active]): the route does not
    do what the claim says.  For a stored event every slot of which meets
    the quota [canPublish] is true, yet a publish call does not succeed:
    the route is mounted behind [authenticateHost], which answers 401 to
    every request, so the collection is unchanged and the event keeps the
    status it had; the host of the event with a token that verifies is
    answered 401 "Invalid host token".  Saving the event with status
    [published], whatever the status was, is what the handler does, which
    the route never runs.  What does hold is that [published] is final: no
    request moves a published event to another status. *)
Theorem publish_complete_unauthorized verify hosts db token eventId event :
  db !! eventId = Some event ->
  Forall (fun s => JambEvent.questionsPerSubject event
                   <= Subject.questionCount s)
         (JambEvent.subjects event) ->
  canPublish event = true
  ∧ (publishRoute verify hosts db token eventId).1 = db
  ∧ (∃ message,
       (publishRoute verify hosts db token eventId).2
       = JsonError 401 message None)
  ∧ (∀ t, token = Some t -> t ≠ "" ->
          verify t = Some (Some (JambEvent.hostId event)) ->
          JambEvent.hostId event ∈ hosts ->
          (publishRoute verify hosts db token eventId).2
          = JsonError 401 "Invalid host token" None)
  ∧ publishEvent db (mkHostRequest eventId (JambEvent.hostId event))
    = (<[eventId := JambEvent.set_status published event]> db,
       EventPublished)
  ∧ (∀ db1 db2 id published_event,
       step db1 db2 ->
       db1 !! id = Some published_event ->
       JambEvent.status published_event = published ->
       db2 !! id = None
       ∨ ∃ event', db2 !! id = Some event'
                   ∧ JambEvent.status event' = published).
Proof.
  intros Hev Hall%canPublish_true. unfold publishRoute. split_and!.
  - done.
  - by destruct (behindAuthenticateHost_rejects verify hosts token db
                   (fun host => publishEvent db (mkHostRequest eventId host)))
      as (m & -> & _).
  - destruct (behindAuthenticateHost_rejects verify hosts token db
                (fun host => publishEvent db (mkHostRequest eventId host)))
      as (m & -> & _). eauto.
  - intros t -> Ht Hverify Hhost.
    by rewrite (behindAuthenticateHost_valid_token verify hosts t
                  (JambEvent.hostId event)).
  - unfold publishEvent.
    rewrite (proj2 (findOwned_Some db _ event)) by done.
    unfold canPublish in Hall. apply negb_true_iff in Hall. rewrite Hall.
    by rewrite publishAssignments_foldl.
  - apply step_published.
Qed.

Lemma publish_complete_unauthorized_witness :
  publishRoute Scenario.verify Scenario.hosts (Scenario.allDone 1)
    (Some Scenario.hostToken) Scenario.eventId
  = (Scenario.allDone 1, JsonError 401 "Invalid host token" None)
  ∧ JambEvent.status (Scenario.stored (Scenario.allDone 1)) = completed
  ∧ (publishEvent (Scenario.allDone 1) Scenario.publishRequest).2
    = EventPublished.
Proof.
  destruct (publish_complete_unauthorized Scenario.verify Scenario.hosts
              (Scenario.allDone 1) (Some Scenario.hostToken) Scenario.eventId
              (Scenario.stored (Scenario.allDone 1)))
    as (_ & Hdb & _ & Hroute & Hhandler & _).
  - vm_compute. reflexivity.
  - vm_compute. repeat constructor; discriminate.
  - split_and!.
    + rewrite (surjective_pairing (publishRoute _ _ _ _ _)), Hdb.
      rewrite (Hroute Scenario.hostToken); [reflexivity..|discriminate| |].
      * reflexivity.
      * apply (bool_decide_unpack _). vm_compute. exact I.
    + vm_compute. reflexivity.
    + change Scenario.publishRequest
        with (mkHostRequest Scenario.eventId
                (JambEvent.hostId (Scenario.stored (Scenario.allDone 1)))).
      by rewrite Hhandler.
Defined.

(** C6 (validation of the items of a batch), as the server performs it.
    If some item of the batch has a missing or empty question text, or
    options that are missing or not four in number, or a correct answer
    that is missing or outside the range 0..3, the call fails and the
    collection is unchanged.  When the call gets as far as the validation
    (the event exists, is active and has the teacher's slot) the answer is
    the 500 "Failed to save questions", and its detail is the message of
    the guard that fires first on the first bad item of the batch, an item
    at or before the given one with only valid items before it: "Invalid
    question data: missing required fields" when the question text, the
    options or the correct answer is missing or the text is empty;
    otherwise "Each question must have exactly 4 options" when the options
    are not four; otherwise "Correct answer must be between 0 and 3".  The
    detail does not tell where the item sits in the batch. *)
Theorem contribute_invalid_item_rejected db req questions k q :
  contribute_questions req = Some questions ->
  questions !! k = Some q ->
  (QuestionInput.question q = None
   ∨ QuestionInput.question q = Some ""
   ∨ QuestionInput.options q = None
   ∨ (∃ options, QuestionInput.options q = Some options
                 ∧ length options ≠ 4%nat)
   ∨ QuestionInput.correctAnswer q = None
   ∨ (∃ answer, QuestionInput.correctAnswer q = Some answer
                ∧ (answer < 0 ∨ 3 < answer))) ->
  (contribute db req).1 = db
  ∧ ∃ code error details,
      (contribute db req).2 = JsonError code error details
      ∧ (∀ event i slot,
           db !! contribute_eventId req = Some event ->
           JambEvent.status event = active ->
           findSubject (contribute_teacher req) event = Some (i, slot) ->
           code = 500
           ∧ error = "Failed to save questions"
           ∧ ∃ first bad,
               (first <= k)%nat
               ∧ questions !! first = Some bad
               ∧ (∀ j earlier, (j < first)%nat ->
                               questions !! j = Some earlier ->
                               validQuestion earlier = true)
               ∧ (((QuestionInput.question bad = None
                    ∨ QuestionInput.question bad = Some ""
                    ∨ QuestionInput.options bad = None
                    ∨ QuestionInput.correctAnswer bad = None)
                   ∧ details
                     = Some "Invalid question data: missing required fields")
                  ∨ (∃ text options answer,
                       QuestionInput.question bad = Some text ∧ text ≠ ""
                       ∧ QuestionInput.options bad = Some options
                       ∧ QuestionInput.correctAnswer bad = Some answer
                       ∧ length options ≠ 4%nat
                       ∧ details
                         = Some "Each question must have exactly 4 options")
                  ∨ (∃ text options answer,
                       QuestionInput.question bad = Some text ∧ text ≠ ""
                       ∧ QuestionInput.options bad = Some options
                       ∧ QuestionInput.correctAnswer bad = Some answer
                       ∧ length options = 4%nat
                       ∧ (answer < 0 ∨ 3 < answer)
                       ∧ details
                         = Some "Correct answer must be between 0 and 3"))).
Proof.
  intros Hqs Hk Hbad.
  assert (Hinvalid : validQuestion q = false).
  { unfold validQuestion.
    destruct Hbad as [H|[H|[H|[(o & H & Hlen)|[H|(a & H & Hrange)]]]]];
      rewrite ?H; try done.
    - by destruct (QuestionInput.options q), (QuestionInput.correctAnswer q).
    - by destruct (QuestionInput.question q).
    - destruct (QuestionInput.question q), (QuestionInput.correctAnswer q);
        try done.
      rewrite (bool_decide_eq_false_2 (length o = 4%nat)) by done.
      by rewrite andb_false_r.
    - by destruct (QuestionInput.question q), (QuestionInput.options q).
    - destruct (QuestionInput.question q), (QuestionInput.options q);
        try done.
      rewrite (bool_decide_eq_false_2 (0 <= a <= 3)) by lia.
      by rewrite andb_false_r. }
  assert (Hin : q ∈ questions) by (apply list_elem_of_lookup; eauto).
  destruct (newQuestion_invalid (contribute_teacher req) q Hinvalid) as [m Hm].
  destruct (mapThrows_elem_inl _ _ _ _ Hin Hm) as [m' Hm'].
  destruct (mapThrows_first_throw _ _ _ Hm')
    as (first & bad & Hfirst & Hthrown & Hbefore).
  assert (Hle : (first <= k)%nat).
  { destruct (decide (first <= k)%nat) as [|Hlt]; [done|].
    destruct (Hbefore k q) as [y Hy]; [lia|done|]. congruence. }
  unfold contribute. rewrite Hqs.
  destruct questions as [|q0 qs]; [by inversion Hin|].
  destruct (db !! contribute_eventId req) as [event|] eqn:Hev.
  - case_decide as Hst.
    + split; [done|]. eexists _, _, _. split; [done|].
      intros e i slot [= <-] Hactive. by destruct Hst.
    + destruct (findSubject _ event) as [[i slot]|] eqn:Hfind.
      * rewrite Hm'. split; [done|]. eexists _, _, _. split; [done|].
        intros _ _ _ _ _ _. split_and!; [done..|].
        exists first, bad. split_and!; [done|done| |].
        -- intros j earlier Hj Hearlier.
           destruct (Hbefore j earlier Hj Hearlier) as [y Hy].
           by apply (newQuestion_inr_valid (contribute_teacher req) _ y).
        -- destruct (newQuestion_throws _ _ _ Hthrown)
             as [[Hmissing ->]|[(text & options & answer & ? & ? & ? & ?
                                 & ? & ->)
                               |(text & options & answer & ? & ? & ? & ?
                                 & ? & ? & ->)]].
           ++ by left.
           ++ right. left. exists text, options, answer. by split_and!.
           ++ right. right. exists text, options, answer. by split_and!.
      * split; [done|]. eexists _, _, _. split; [done|].
        intros e i slot [= <-] _ Hfound. congruence.
  - split; [done|]. eexists _, _, _. split; [done|]. by intros e i slot.
Qed.

Lemma contribute_invalid_item_rejected_witness :
  contribute (Scenario.created 2)
    (Scenario.request Scenario.ada
       [Scenario.item "x" 0; Scenario.threeOptions])
  = (Scenario.created 2,
     JsonError 500 "Failed to save questions"
       (Some "Each question must have exactly 4 options")).
Proof.
  destruct (contribute_invalid_item_rejected (Scenario.created 2)
              (Scenario.request Scenario.ada
                 [Scenario.item "x" 0; Scenario.threeOptions])
              [Scenario.item "x" 0; Scenario.threeOptions] 1%nat
              Scenario.threeOptions)
    as (Hdb & code & error & details & Hresp & Hreached).
  - reflexivity.
  - reflexivity.
  - do 3 right. left. exists ["a"; "b"; "c"]. split; [reflexivity|].
    simpl. lia.
  - rewrite (surjective_pairing (contribute _ _)), Hdb, Hresp.
    destruct (Hreached (Scenario.stored (Scenario.created 2)) 0%nat
                (emptySubject "Mathematics"))
      as (-> & -> & first & bad & Hle & Hbad & _ & Hguard);
      [vm_compute; reflexivity..|].
    do 2 f_equal.
    destruct first as [|[|first]]; [| |lia]; simpl in Hbad;
      injection Hbad as <-;
      destruct Hguard
        as [[[H|[H|[H|H]]] _]
           |[(text & options & answer & _ & _ & Hoptions & _ & Hlength & ->)
            |(text & options & answer & _ & _ & Hoptions & Hanswer & Hlength
              & Hrange & _)]];
      try discriminate H; try reflexivity;
      injection Hoptions as <-; try discriminate Hlength;
      try (by destruct Hlength);
      injection Hanswer as <-; lia.
Defined.

(** C6, the claim as it was stated, fails in two ways.  An item with a
    blank option text passes the guards: the call succeeds and the blank
    option is stored, trimmed to the empty string.  And the error for a bad
    item does not tell where it sits in the batch: a three-option item in
    first place and one in second place get the same answer. *)
Lemma contribute_blank_option_and_position :
  Js.trim "  " = ""
  ∧ (contribute (Scenario.created 2)
       (Scenario.request Scenario.ada [Scenario.blankOption])).2
    = QuestionsSaved 1 1 active
  ∧ Scenario.questionsOf Scenario.ada 0
      (contribute (Scenario.created 2)
         (Scenario.request Scenario.ada [Scenario.blankOption])).1
    = Some [Question.mk "q" ["a"; ""; "c"; "d"] 0 [] []
              (Some 1%nat) (Some "Ada")]
  ∧ (contribute (Scenario.created 2)
       (Scenario.request Scenario.ada
          [Scenario.threeOptions; Scenario.item "x" 0])).2
    = JsonError 500 "Failed to save questions"
        (Some "Each question must have exactly 4 options")
  ∧ (contribute (Scenario.created 2)
       (Scenario.request Scenario.ada
          [Scenario.item "x" 0; Scenario.threeOptions])).2
    = JsonError 500 "Failed to save questions"
        (Some "Each question must have exactly 4 options").
Proof. split_and!; vm_compute; reflexivity. Qed.

(** * Further properties of the routes *)

(** ** Helpers *)

Lemma list_find_alter_stable {A} (P : A -> Prop) `{!∀ x, Decision (P x)}
    (f : A -> A) i (l : list A) :
  (∀ x, P (f x) <-> P x) ->
  list_find P (alter f i l)
  = (fun hit : nat * A =>
       (hit.1, if decide (hit.1 = i) then f hit.2 else hit.2))
      <$> list_find P l.
Proof.
  intros Hstable. destruct (list_find P l) as [[j x]|] eqn:Hfind; simpl.
  - apply list_find_Some in Hfind as (Hj & HP & Hfirst).
    apply list_find_Some. split_and!.
    + rewrite list_lookup_alter. case_decide as Hij.
      * subst j. rewrite Hj. simpl. by rewrite decide_True.
      * rewrite Hj. by rewrite decide_False by done.
    + case_decide; [by apply Hstable|done].
    + intros k y Hk Hlt. rewrite list_lookup_alter in Hk.
      case_decide as Hik.
      * subst k. destruct (l !! i) as [z|] eqn:Hz; [|done].
        injection Hk as <-. rewrite Hstable. eauto.
      * eauto.
  - apply list_find_None. apply list_find_None in Hfind.
    apply Forall_lookup. intros k y Hk. rewrite list_lookup_alter in Hk.
    case_decide as Hik.
    + subst k. destruct (l !! i) as [z|] eqn:Hz; [|done].
      injection Hk as <-. rewrite Hstable.
      eapply Forall_lookup in Hfind; eauto.
    + eapply Forall_lookup in Hfind; eauto.
Qed.

(** The slot of any teacher is found at the same place in the saved
    document. *)
Lemma findSubject_savedEvent_any teacher other i questions newQuestions event :
  findSubject other (savedEvent teacher i questions newQuestions event)
  = (fun hit : nat * Subject.t =>
       (hit.1,
        if decide (hit.1 = i)
        then replacedSubject teacher (Z.of_nat (length questions))
               newQuestions hit.2
        else hit.2))
      <$> findSubject other event.
Proof.
  unfold findSubject. rewrite subjects_savedEvent.
  by apply list_find_alter_stable.
Qed.

Lemma newQuestion_stored teacher q y :
  newQuestion teacher q = inr y ->
  ∃ text options answer,
    QuestionInput.question q = Some text
    ∧ QuestionInput.options q = Some options
    ∧ QuestionInput.correctAnswer q = Some answer
    ∧ y = Question.mk (Js.trim text) (map Js.trim options) answer
            (Js.orEmpty (QuestionInput.imageUrls q))
            (Js.orEmpty (QuestionInput.imagePublicIds q))
            (Some (Teacher._id teacher)) (Some (Teacher.name teacher)).
Proof.
  unfold newQuestion, Js.throw.
  destruct (QuestionInput.question q) as [text|]; [|done].
  destruct (QuestionInput.options q) as [opts|]; [|done].
  destruct (QuestionInput.correctAnswer q) as [ans|]; [|done].
  repeat case_decide; try done. intros [= <-]. by eexists _, _, _.
Qed.

Lemma existingQuestions_other_teacher teacher other qs newQuestions :
  Teacher._id other ≠ Teacher._id teacher ->
  Forall (fun y => Question.teacherId y = Some (Teacher._id teacher))
         newQuestions ->
  existingQuestions other (otherQuestions teacher qs ++ newQuestions)
  = existingQuestions other qs.
Proof.
  intros Hne Hnew. unfold existingQuestions at 1. rewrite filter_app.
  assert (filter (fun q => Question.teacherId q = Some (Teacher._id other))
                 newQuestions = []) as ->.
  { induction Hnew as [|y ys Hy _ IH]; [done|].
    rewrite filter_cons_False; [done|]. congruence. }
  rewrite app_nil_r. unfold otherQuestions, existingQuestions.
  induction qs as [|q qs IH]; [done|].
  rewrite (filter_cons _ q qs). case_decide as Hkeep.
  - rewrite !filter_cons. rewrite IH. by repeat case_decide.
  - rewrite IH. rewrite (filter_cons_False _ q); [done|].
    intros Hq. apply Hkeep. right. congruence.
Qed.

(** ** What a contribution touches *)

(** X1.  A successful contribution changes one document and, in it, one
    slot: every other stored event and every other slot of the event are
    as before, the slot keeps its name and the questions of the other
    teachers in their order, the fields fixed at creation keep their
    values, and the count reported for the slot is the number of the other
    teachers' questions plus the size of the batch. *)
Theorem contribute_frame db req db' n t st :
  contribute db req = (db', QuestionsSaved n t st) ->
  ∃ event saved i slot slot',
    db !! contribute_eventId req = Some event
    ∧ db' !! contribute_eventId req = Some saved
    ∧ findSubject (contribute_teacher req) event = Some (i, slot)
    ∧ JambEvent.subjects saved !! i = Some slot'
    ∧ (∀ other, other ≠ contribute_eventId req -> db' !! other = db !! other)
    ∧ (∀ j, j ≠ i ->
            JambEvent.subjects saved !! j = JambEvent.subjects event !! j)
    ∧ length (JambEvent.subjects saved) = length (JambEvent.subjects event)
    ∧ Subject.subject slot' = Subject.subject slot
    ∧ otherQuestions (contribute_teacher req) (Subject.questions slot')
      = otherQuestions (contribute_teacher req) (Subject.questions slot)
    ∧ t = Z.of_nat (length (otherQuestions (contribute_teacher req)
                               (Subject.questions slot))) + n
    ∧ JambEvent.questionsPerSubject saved = JambEvent.questionsPerSubject event
    ∧ JambEvent.hostId saved = JambEvent.hostId event
    ∧ JambEvent.shareId saved = JambEvent.shareId event.
Proof.
  intros (qs & event & i & slot & newQs & Hqs & Hne & Hev & Hst & Hfind
          & Hmap & -> & -> & -> & _)%contribute_saved.
  destruct (findSubject_lookup _ _ _ _ Hfind) as [Hi _].
  pose proof (mapThrows_newQuestion_teacherId _ _ _ Hmap) as Hnew.
  pose proof (mapThrows_newQuestion_length _ _ _ Hmap) as Hlen.
  eexists event, _, i, slot, _. split_and!.
  - done.
  - apply lookup_insert_eq.
  - done.
  - by rewrite subjects_savedEvent, list_lookup_alter_eq, Hi.
  - intros other Hother. by rewrite lookup_insert_ne.
  - intros j Hj. by rewrite subjects_savedEvent, list_lookup_alter_ne.
  - by rewrite subjects_savedEvent, length_alter.
  - done.
  - simpl. by apply otherQuestions_replaced.
  - rewrite (subjectQuestionCount_savedEvent _ _ slot) by done.
    rewrite length_app. lia.
  - apply questionsPerSubject_savedEvent.
  - apply hostId_savedEvent.
  - rewrite savedEvent_fields. done.
Qed.

Lemma contribute_frame_witness :
  ∃ event saved i slot slot',
    Scenario.created 2 !! Scenario.eventId = Some event
    ∧ (contribute (Scenario.created 2)
         (Scenario.request Scenario.ada (Scenario.batchOf 2))).1
      !! Scenario.eventId = Some saved
    ∧ findSubject Scenario.ada event = Some (i, slot)
    ∧ JambEvent.subjects saved !! i = Some slot'
    ∧ (∀ j, j ≠ i ->
            JambEvent.subjects saved !! j = JambEvent.subjects event !! j).
Proof.
  destruct (contribute_frame (Scenario.created 2)
              (Scenario.request Scenario.ada (Scenario.batchOf 2))
              (contribute (Scenario.created 2)
                 (Scenario.request Scenario.ada (Scenario.batchOf 2))).1
              2 2 active)
    as (event & saved & i & slot & slot' & H1 & H2 & H3 & H4 & _ & H6 & _).
  - vm_compute. reflexivity.
  - exists event, saved, i, slot, slot'. split_and!; assumption.
Defined.

(** X2.  Reading back.  After a successful contribution the teacher's
    [GET /api/teacher/events/:eventId] returns the saved event and, as the
    teacher's existing questions, exactly one question per item of the
    batch, in order: the item's text and options trimmed, its answer, its
    images (none when absent), attributed to the teacher. *)
Theorem contribute_then_read db req db' n t st :
  contribute db req = (db', QuestionsSaved n t st) ->
  ∃ questions saved existing,
    contribute_questions req = Some questions
    ∧ db' !! contribute_eventId req = Some saved
    ∧ getTeacherEvent db' (contribute_eventId req) (contribute_teacher req)
      = TeacherEvent saved existing
    ∧ Z.of_nat (length existing) = n
    ∧ Forall2
        (fun q y =>
           ∃ text options answer,
             QuestionInput.question q = Some text
             ∧ QuestionInput.options q = Some options
             ∧ QuestionInput.correctAnswer q = Some answer
             ∧ y = Question.mk (Js.trim text) (map Js.trim options) answer
                     (Js.orEmpty (QuestionInput.imageUrls q))
                     (Js.orEmpty (QuestionInput.imagePublicIds q))
                     (Some (Teacher._id (contribute_teacher req)))
                     (Some (Teacher.name (contribute_teacher req))))
        questions existing.
Proof.
  intros (qs & event & i & slot & newQs & Hqs & Hne & Hev & Hst & Hfind
          & Hmap & -> & -> & _ & _)%contribute_saved.
  pose proof (mapThrows_newQuestion_teacherId _ _ _ Hmap) as Hnew.
  exists qs, (savedEvent (contribute_teacher req) i qs newQs event), newQs.
  split_and!.
  - done.
  - apply lookup_insert_eq.
  - unfold getTeacherEvent, mySubject. rewrite lookup_insert_eq.
    rewrite (findSubject_savedEvent _ _ slot) by done. simpl.
    by rewrite existingQuestions_replaced.
  - f_equal. eauto using mapThrows_newQuestion_length.
  - apply mapThrows_inr_Forall2 in Hmap.
    eapply Forall2_impl; [exact Hmap|]. simpl.
    intros q y Hq. by apply newQuestion_stored.
Qed.

Lemma contribute_then_read_witness :
  ∃ saved,
    getTeacherEvent
      (contribute (Scenario.created 2)
         (Scenario.request Scenario.ada [Scenario.item (Scenario.nbsp +:+ " x ") 3])).1
      Scenario.eventId Scenario.ada
    = TeacherEvent saved
        [Question.mk "x" ["a"; "b"; "c"; "d"] 3 [] [] (Some 1%nat)
           (Some "Ada")].
Proof.
  destruct (contribute_then_read (Scenario.created 2)
              (Scenario.request Scenario.ada [Scenario.item (Scenario.nbsp +:+ " x ") 3])
              (contribute (Scenario.created 2)
                 (Scenario.request Scenario.ada [Scenario.item (Scenario.nbsp +:+ " x ") 3])).1
              1 1 active)
    as (questions & saved & existing & Hqs & _ & Hread & _ & Hall).
  - vm_compute. reflexivity.
  - exists saved. etrans; [exact Hread|]. f_equal.
    injection Hqs as <-.
    apply Forall2_cons_inv_l in Hall as (y & ys & Hy & Hys & ->).
    apply Forall2_nil_inv_l in Hys as ->.
    destruct Hy as (text & options & answer & [= <-] & [= <-] & [= <-] & ->).
    reflexivity.
Defined.

(** X3.  A contribution by one teacher does not change what another
    teacher reads back: for a teacher with a different id, whatever that
    teacher's subject, the existing questions returned after the call are
    those returned before it. *)
Theorem contribute_other_teacher_reads_same db req db' n t st other :
  contribute db req = (db', QuestionsSaved n t st) ->
  Teacher._id other ≠ Teacher._id (contribute_teacher req) ->
  ∃ event saved existing,
    getTeacherEvent db (contribute_eventId req) other
    = TeacherEvent event existing
    ∧ getTeacherEvent db' (contribute_eventId req) other
      = TeacherEvent saved existing.
Proof.
  intros (qs & event & i & slot & newQs & Hqs & Hne & Hev & Hst & Hfind
          & Hmap & -> & _)%contribute_saved Hother.
  pose proof (mapThrows_newQuestion_teacherId _ _ _ Hmap) as Hnew.
  eexists event, _, _. split.
  - unfold getTeacherEvent. by rewrite Hev.
  - unfold getTeacherEvent, mySubject. rewrite lookup_insert_eq. f_equal.
    rewrite findSubject_savedEvent_any.
    destruct (findSubject other event) as [[j s]|]; simpl; [|done].
    case_decide; [|done]. simpl.
    by apply existingQuestions_other_teacher.
Qed.

Lemma contribute_other_teacher_reads_same_witness :
  ∃ event saved existing,
    getTeacherEvent (Scenario.created 2) Scenario.eventId
      (Teacher.mk 7%nat "Ann" "Mathematics")
    = TeacherEvent event existing
    ∧ getTeacherEvent
        (contribute (Scenario.created 2)
           (Scenario.request Scenario.ada (Scenario.batchOf 2))).1
        Scenario.eventId (Teacher.mk 7%nat "Ann" "Mathematics")
      = TeacherEvent saved existing.
Proof.
  apply (contribute_other_teacher_reads_same (Scenario.created 2)
           (Scenario.request Scenario.ada (Scenario.batchOf 2))
           (contribute (Scenario.created 2)
              (Scenario.request Scenario.ada (Scenario.batchOf 2))).1
           2 2 active (Teacher.mk 7%nat "Ann" "Mathematics")).
  - vm_compute. reflexivity.
  - vm_compute. discriminate.
Defined.

(** ** The teacher's dashboard *)

Lemma teacherEventCounts_filter teacher events :
  teacherEventCounts teacher events
  = (Z.of_nat (length (filter (fun e => countsAsContribution teacher e = true)
                              events)),
     Z.of_nat (length (filter (fun e => countsAsPending teacher e = true)
                              events))).
Proof.
  unfold teacherEventCounts.
  enough (∀ a b,
    foldl (fun counts event =>
             ((if countsAsContribution teacher event then counts.1 + 1
               else counts.1),
              (if countsAsPending teacher event then counts.2 + 1
               else counts.2)))
          (a, b) events
    = (a + Z.of_nat (length (filter
                               (fun e => countsAsContribution teacher e = true)
                               events)),
       b + Z.of_nat (length (filter
                               (fun e => countsAsPending teacher e = true)
                               events)))) as H by apply H.
  induction events as [|e events IH]; intros a b; simpl.
  - f_equal; lia.
  - rewrite IH, !filter_cons.
    destruct (countsAsContribution teacher e),
             (countsAsPending teacher e); simpl;
      repeat case_decide; try done; simpl; f_equal; lia.
Qed.

(** X4.  The dashboard after a contribution.  For the contributing
    teacher, and equally for any colleague registered under the same
    subject (who may have contributed nothing), the event counts among "my
    contributions"; and it no longer counts as pending once the batch was at
    least as long as the quota. *)
Theorem contribute_then_dashboard db req db' n t st colleague :
  contribute db req = (db', QuestionsSaved n t st) ->
  Teacher.subject colleague = Teacher.subject (contribute_teacher req) ->
  ∃ saved,
    db' !! contribute_eventId req = Some saved
    ∧ countsAsContribution colleague saved = true
    ∧ (JambEvent.questionsPerSubject saved <= n ->
       countsAsPending colleague saved = false).
Proof.
  intros (qs & event & i & slot & newQs & Hqs & Hne & Hev & Hst & Hfind
          & Hmap & -> & -> & _)%contribute_saved Hsubject.
  pose proof (mapThrows_newQuestion_length _ _ _ Hmap) as Hlen.
  set (saved := savedEvent _ _ _ _ _).
  assert (Hmine : mySubject colleague saved
                  = Some (replacedSubject (contribute_teacher req)
                            (Z.of_nat (length qs)) newQs slot)).
  { unfold mySubject, findSubject. rewrite Hsubject.
    fold (findSubject (contribute_teacher req) saved). unfold saved.
    by rewrite (findSubject_savedEvent _ _ slot). }
  exists saved. split_and!.
  - apply lookup_insert_eq.
  - unfold countsAsContribution. rewrite Hmine. apply bool_decide_eq_true.
    simpl. rewrite length_app, Hlen. destruct qs; [done|]. simpl. lia.
  - intros Hquota. unfold countsAsPending. rewrite Hmine.
    apply andb_false_iff. right. apply bool_decide_eq_false.
    unfold saved at 1. rewrite questionsPerSubject_savedEvent.
    unfold saved in Hquota. rewrite questionsPerSubject_savedEvent in Hquota.
    simpl. rewrite length_app, Hlen. lia.
Qed.

Lemma contribute_then_dashboard_witness :
  ∃ saved,
    (contribute (Scenario.created 2)
       (Scenario.request Scenario.ada (Scenario.batchOf 2))).1
    !! Scenario.eventId = Some saved
    ∧ countsAsContribution (Teacher.mk 7%nat "Ann" "Mathematics") saved = true
    ∧ countsAsPending (Teacher.mk 7%nat "Ann" "Mathematics") saved = false.
Proof.
  destruct (contribute_then_dashboard (Scenario.created 2)
              (Scenario.request Scenario.ada (Scenario.batchOf 2))
              (contribute (Scenario.created 2)
                 (Scenario.request Scenario.ada (Scenario.batchOf 2))).1
              2 2 active (Teacher.mk 7%nat "Ann" "Mathematics"))
    as (saved & Hsaved & Hmine & Hpending).
  - vm_compute. reflexivity.
  - reflexivity.
  - exists saved. split_and!; [exact Hsaved|exact Hmine|].
    apply Hpending. revert Hsaved. vm_compute. intros [= <-]. discriminate.
Defined.

(** X5.  The two counters of the dashboard do not depend on the order in
    which the events are listed; "my contributions" is at most the number
    of events and "pending" at most the number of active events. *)
Theorem teacherEventCounts_order teacher events events' :
  events ≡ₚ events' ->
  teacherEventCounts teacher events = teacherEventCounts teacher events'
  ∧ 0 <= (teacherEventCounts teacher events).1 <= Z.of_nat (length events)
  ∧ 0 <= (teacherEventCounts teacher events).2
    <= Z.of_nat (length (filter (fun e => JambEvent.status e = active)
                                events)).
Proof.
  intros Hperm. rewrite !teacherEventCounts_filter. simpl. split_and!.
  - by rewrite Hperm.
  - lia.
  - pose proof (length_filter
                  (fun e => countsAsContribution teacher e = true) events).
    lia.
  - lia.
  - enough (length (filter (fun e => countsAsPending teacher e = true) events)
            <= length (filter (fun e => JambEvent.status e = active) events))%nat
      by lia.
    clear Hperm. induction events as [|e events IH]; [done|].
    rewrite (filter_cons (fun e => countsAsPending teacher e = true)).
    case_decide as Hpending.
    + rewrite filter_cons_True; [simpl; lia|].
      unfold countsAsPending in Hpending.
      by apply andb_true_iff in Hpending as [Hact%bool_decide_eq_true _].
    + rewrite filter_cons. case_decide; simpl; lia.
Qed.

Lemma teacherEventCounts_order_witness :
  teacherEventCounts Scenario.ada
    [Scenario.stored (Scenario.created 2); Scenario.stored (Scenario.allDone 1)]
  = teacherEventCounts Scenario.ada
      [Scenario.stored (Scenario.allDone 1); Scenario.stored (Scenario.created 2)].
Proof.
  apply (teacherEventCounts_order Scenario.ada
           [Scenario.stored (Scenario.created 2);
            Scenario.stored (Scenario.allDone 1)]
           [Scenario.stored (Scenario.allDone 1);
            Scenario.stored (Scenario.created 2)]).
  apply Permutation_swap.
Defined.

(** ** How a request changes a stored event *)

Lemma step_kept db db' id event event' :
  step db db' ->
  db !! id = Some event ->
  db' !! id = Some event' ->
  event' = event
  ∨ (canPublish event = true
     ∧ event' = JambEvent.set_status published event)
  ∨ (∃ teacher i slot questions newQuestions,
       JambEvent.status event = active
       ∧ findSubject teacher event = Some (i, slot)
       ∧ questions ≠ []
       ∧ Js.mapThrows (newQuestion teacher) questions = inr newQuestions
       ∧ event' = savedEvent teacher i questions newQuestions event).
Proof.
  intros Hstep Hev Hev'.
  destruct Hstep as [db host body newId shareId Hfresh|db req|db req|db req].
  - left. unfold createEvent in Hev'.
    destruct (validEvent body); simpl in Hev'; [|congruence].
    rewrite lookup_insert_ne in Hev' by congruence. congruence.
  - destruct (publishEvent db req) as [db' resp] eqn:Hcall.
    destruct resp; try (left; revert Hcall; unfold publishEvent;
      destruct (findOwned db req); [destruct (bool_decide _)|];
      intros [= <-]; simpl in Hev'; congruence).
    apply publishEvent_published in Hcall
      as (e & He & _ & Hgate & ->). simpl in Hev'.
    destruct (decide (host_eventId req = id)) as [<-|Hne].
    + rewrite lookup_insert_eq in Hev'. right. left. split; congruence.
    + rewrite lookup_insert_ne in Hev' by done. left. congruence.
  - left. unfold deleteEvent in Hev'. destruct (findOwned db req).
    + simpl in Hev'. destruct (decide (host_eventId req = id)) as [<-|Hne].
      * by rewrite lookup_delete_eq in Hev'.
      * rewrite lookup_delete_ne in Hev' by done. congruence.
    + simpl in Hev'. congruence.
  - destruct (contribute_rejects db req)
      as [(n & t & st & Hok)|(code & error & details & Herr)].
    + destruct (contribute db req) as [db' resp] eqn:Hcall.
      simpl in Hok. subst resp.
      apply contribute_saved in Hcall
        as (qs & e & i & slot & newQs & _ & Hne & He & Hst & Hfind & Hmap
            & -> & _).
      simpl in Hev'.
      destruct (decide (contribute_eventId req = id)) as [<-|Hother].
      * rewrite lookup_insert_eq in Hev'. right. right.
        assert (e = event) as -> by congruence.
        exists (contribute_teacher req), i, slot, qs, newQs.
        split_and!; congruence.
      * rewrite lookup_insert_ne in Hev' by done. left. congruence.
    + rewrite Herr in Hev'. simpl in Hev'. left. congruence.
Qed.

Lemma step_new db db' id event' :
  step db db' ->
  db !! id = None ->
  db' !! id = Some event' ->
  ∃ host shareId body, event' = newEvent host shareId body.
Proof.
  intros Hstep Hev Hev'.
  destruct Hstep as [db host body newId shareId Hfresh|db req|db req|db req].
  - unfold createEvent in Hev'.
    destruct (validEvent body); simpl in Hev'; [|congruence].
    destruct (decide (newId = id)) as [<-|Hne].
    + rewrite lookup_insert_eq in Hev'. injection Hev' as <-. eauto.
    + rewrite lookup_insert_ne in Hev' by done. congruence.
  - exfalso. unfold publishEvent in Hev'.
    destruct (findOwned db req) as [e|] eqn:Hfind; [|simpl in Hev'; congruence].
    apply findOwned_Some in Hfind as [He _].
    destruct (bool_decide _); simpl in Hev'; [congruence|].
    destruct (decide (host_eventId req = id)) as [<-|Hne]; [congruence|].
    rewrite lookup_insert_ne in Hev' by done. congruence.
  - exfalso. unfold deleteEvent in Hev'.
    destruct (findOwned db req); simpl in Hev'; [|congruence].
    destruct (decide (host_eventId req = id)) as [<-|Hne].
    + by rewrite lookup_delete_eq in Hev'.
    + rewrite lookup_delete_ne in Hev' by done. congruence.
  - exfalso. destruct (contribute_rejects db req)
      as [(n & t & st & Hok)|(code & error & details & Herr)].
    + destruct (contribute db req) as [db' resp] eqn:Hcall.
      simpl in Hok. subst resp.
      apply contribute_saved in Hcall
        as (qs & e & i & slot & newQs & _ & _ & He & _ & _ & _ & -> & _).
      simpl in Hev'.
      destruct (decide (contribute_eventId req = id)) as [<-|Hother];
        [congruence|].
      rewrite lookup_insert_ne in Hev' by done. congruence.
    + rewrite Herr in Hev'. simpl in Hev'. congruence.
Qed.

(** A property of events that holds for a new event and is kept by a
    publication and by a saved contribution holds throughout every run. *)
Lemma reachable_event_invariant (P : JambEvent.t -> Prop) :
  (∀ host shareId body, P (newEvent host shareId body)) ->
  (∀ event, P event -> canPublish event = true ->
            P (JambEvent.set_status published event)) ->
  (∀ teacher i slot questions newQuestions event,
     P event ->
     JambEvent.status event = active ->
     findSubject teacher event = Some (i, slot) ->
     questions ≠ [] ->
     Js.mapThrows (newQuestion teacher) questions = inr newQuestions ->
     P (savedEvent teacher i questions newQuestions event)) ->
  ∀ db, reachable db -> ∀ id event, db !! id = Some event -> P event.
Proof.
  intros Hnew Hpublish Hsave db Hreach.
  induction Hreach as [|db db' _ IH Hstep]; intros id event' Hev'; [done|].
  destruct (db !! id) as [event|] eqn:Hev.
  - destruct (step_kept _ _ _ _ _ Hstep Hev Hev')
      as [->|[[Hgate ->]|(teacher & i & slot & qs & newQs & Hst & Hfind & Hne
                          & Hmap & ->)]]; eauto.
  - destruct (step_new _ _ _ _ Hstep Hev Hev') as (host & sid & body & ->).
    apply Hnew.
Qed.

Lemma subjectNames_savedEvent teacher i questions newQuestions event :
  map Subject.subject
      (JambEvent.subjects (savedEvent teacher i questions newQuestions event))
  = map Subject.subject (JambEvent.subjects event).
Proof.
  rewrite subjects_savedEvent. apply list_eq. intros j.
  rewrite !list_lookup_fmap, list_lookup_alter. case_decide as Hij; [|done].
  subst j. by destruct (JambEvent.subjects event !! i).
Qed.

(** ** What no request changes *)

(** X6.  The fields of an event fixed at creation.  Whatever request is
    served, an event that is stored before and after keeps its title,
    description, time limit, quota, deadline, host and share id, and the
    number of its slots. *)
Theorem step_keeps_creation_fields db db' id event event' :
  step db db' ->
  db !! id = Some event ->
  db' !! id = Some event' ->
  JambEvent.title event' = JambEvent.title event
  ∧ JambEvent.description event' = JambEvent.description event
  ∧ JambEvent.timeLimit event' = JambEvent.timeLimit event
  ∧ JambEvent.questionsPerSubject event' = JambEvent.questionsPerSubject event
  ∧ JambEvent.deadline event' = JambEvent.deadline event
  ∧ JambEvent.hostId event' = JambEvent.hostId event
  ∧ JambEvent.shareId event' = JambEvent.shareId event
  ∧ length (JambEvent.subjects event') = length (JambEvent.subjects event).
Proof.
  intros Hstep Hev Hev'.
  destruct (step_kept _ _ _ _ _ Hstep Hev Hev')
    as [->|[[_ ->]|(teacher & i & slot & qs & newQs & _ & _ & _ & _ & ->)]].
  - done.
  - done.
  - rewrite savedEvent_fields. cbv zeta. simpl.
    by rewrite length_alter.
Qed.

Lemma step_keeps_creation_fields_witness :
  JambEvent.questionsPerSubject (Scenario.stored (Scenario.allDone 1))
  = JambEvent.questionsPerSubject (Scenario.stored (Scenario.othersDone 1)).
Proof.
  apply (step_keeps_creation_fields (Scenario.othersDone 1)
           (Scenario.allDone 1) Scenario.eventId
           (Scenario.stored (Scenario.othersDone 1))
           (Scenario.stored (Scenario.allDone 1))).
  - apply step_contribute.
  - vm_compute. reflexivity.
  - vm_compute. reflexivity.
Defined.

(** X7.  The slots of an event.  In every collection the server can reach,
    the subject names of an event's slots are, in order, Mathematics,
    English, Physics, Chemistry and Biology: no slot is ever added, removed
    or renamed, no two slots share a name, and a teacher finds a slot
    exactly when the teacher's subject is one of the five. *)
Theorem reachable_slots_fixed db id event :
  reachable db ->
  db !! id = Some event ->
  map Subject.subject (JambEvent.subjects event) = eventSubjects
  ∧ NoDup (map Subject.subject (JambEvent.subjects event))
  ∧ (∀ teacher, is_Some (findSubject teacher event)
                <-> Teacher.subject teacher ∈ eventSubjects).
Proof.
  intros Hreach Hev.
  assert (Hnames : map Subject.subject (JambEvent.subjects event)
                   = eventSubjects).
  { revert db Hreach id event Hev. apply reachable_event_invariant.
    - done.
    - done.
    - intros teacher i slot qs newQs event IH _ _ _ _.
      by rewrite subjectNames_savedEvent. }
  split_and!.
  - done.
  - rewrite Hnames. apply (bool_decide_unpack (NoDup eventSubjects)).
    vm_compute. exact I.
  - intros teacher. rewrite <- Hnames. unfold findSubject. split.
    + intros [[i slot] (Hi & Hname & _)%list_find_Some].
      rewrite <- Hname. apply list_elem_of_fmap. exists slot. split; [done|].
      apply list_elem_of_lookup. eauto.
    + intros (slot & Hname & Hin)%list_elem_of_fmap.
      by apply (list_find_elem_of _ _ slot).
Qed.

Lemma reachable_slots_fixed_witness :
  map Subject.subject
      (JambEvent.subjects (Scenario.stored (Scenario.created 2)))
  = eventSubjects.
Proof.
  apply (reachable_slots_fixed (Scenario.created 2) Scenario.eventId
           (Scenario.stored (Scenario.created 2))).
  - apply (reachable_step ∅); [constructor|].
    by apply (step_create ∅ Scenario.host
                (EventInput.mk "Mock" None 60 2 0) Scenario.eventId "share").
  - vm_compute. reflexivity.
Defined.

(** X8.  The lifecycle only moves forward.  Whatever request is served, an
    event that is stored before and after is afterwards at the same stage
    or a later one in the order active, completed, published: nothing
    reopens a completed event or unpublishes a published one. *)
Theorem step_status_forward db db' id event event' :
  step db db' ->
  db !! id = Some event ->
  db' !! id = Some event' ->
  (statusRank (JambEvent.status event)
   <= statusRank (JambEvent.status event'))%nat.
Proof.
  intros Hstep Hev Hev'.
  destruct (step_kept _ _ _ _ _ Hstep Hev Hev')
    as [->|[[_ ->]|(teacher & i & slot & qs & newQs & Hst & _ & _ & _ & ->)]].
  - done.
  - simpl. destruct (JambEvent.status event); simpl; lia.
  - rewrite Hst. simpl. lia.
Qed.

Lemma step_status_forward_witness :
  (statusRank (JambEvent.status (Scenario.stored (Scenario.othersDone 1)))
   <= statusRank (JambEvent.status (Scenario.stored (Scenario.allDone 1))))%nat.
Proof.
  apply (step_status_forward (Scenario.othersDone 1) (Scenario.allDone 1)
           Scenario.eventId).
  - apply step_contribute.
  - vm_compute. reflexivity.
  - vm_compute. reflexivity.
Defined.

Lemma reachable_lifecycle db id event :
  reachable db ->
  db !! id = Some event ->
  (JambEvent.status event ≠ active -> allSubjectsComplete event = true)
  ∧ (JambEvent.status event = active ->
     allSubjectsComplete event = false
     ∨ JambEvent.questionsPerSubject event <= 0).
Proof.
  intros Hreach Hev. revert db Hreach id event Hev.
  apply (reachable_event_invariant (fun event =>
    (JambEvent.status event ≠ active -> allSubjectsComplete event = true)
    ∧ (JambEvent.status event = active ->
       allSubjectsComplete event = false
       ∨ JambEvent.questionsPerSubject event <= 0))).
  - intros host sid body. split; [done|]. intros _.
    unfold allSubjectsComplete, newEvent. simpl.
    generalize (Js.toNumber (EventInput.questionsPerSubject body)).
    intros quota. destruct (decide (quota <= 0)); [by right|left].
    rewrite Z.geb_leb, (proj2 (Z.leb_gt _ _)); [done|lia].
  - intros event _ Hgate. split; [|done]. intros _.
    by rewrite <- canPublish_allSubjectsComplete.
  - intros teacher i slot qs newQs event _ Hst _ _ _.
    rewrite status_savedEvent by done.
    destruct (allSubjectsComplete _); split; try done; auto.
Qed.

(** X9.  Status and completeness go together.  In every collection the
    server can reach, an event that is completed or published has every
    slot at or above the quota; and an event with a positive quota that is
    still active has a slot below the quota, so a publish call on it is
    always rejected. *)
Theorem reachable_status_matches_quota db id event :
  reachable db ->
  db !! id = Some event ->
  (JambEvent.status event ≠ active ->
   Forall (fun s => JambEvent.questionsPerSubject event
                    <= Subject.questionCount s)
          (JambEvent.subjects event))
  ∧ (0 < JambEvent.questionsPerSubject event ->
     JambEvent.status event = active ->
     Exists (belowQuota event) (JambEvent.subjects event)
     ∧ canPublish event = false).
Proof.
  intros Hreach Hev.
  destruct (reachable_lifecycle db id event Hreach Hev) as [Hdone Hopen].
  split.
  - intros Hst. by apply allSubjectsComplete_true, Hdone.
  - intros Hquota Hst. destruct (Hopen Hst) as [Hshort|]; [|lia].
    split; [by apply allSubjectsComplete_false|].
    by rewrite canPublish_allSubjectsComplete.
Qed.

Lemma reachable_status_matches_quota_witness :
  canPublish (Scenario.stored (Scenario.created 2)) = false.
Proof.
  apply (reachable_status_matches_quota (Scenario.created 2)
           Scenario.eventId (Scenario.stored (Scenario.created 2))).
  - apply (reachable_step ∅); [constructor|].
    by apply (step_create ∅ Scenario.host
                (EventInput.mk "Mock" None 60 2 0) Scenario.eventId "share").
  - vm_compute. reflexivity.
  - vm_compute. reflexivity.
  - reflexivity.
Defined.

(** ** The ledger along a run *)

Lemma ledgerEntry_same_id teacher teacher' tcs :
  Teacher._id teacher = Teacher._id teacher' ->
  ledgerEntry teacher tcs = ledgerEntry teacher' tcs.
Proof. unfold ledgerEntry. by intros ->. Qed.

Lemma existingQuestions_same_id teacher teacher' qs :
  Teacher._id teacher = Teacher._id teacher' ->
  existingQuestions teacher qs = existingQuestions teacher' qs.
Proof. unfold existingQuestions. by intros ->. Qed.

Lemma ledgerEntry_upsert_other teacher other n tcs :
  Teacher._id other ≠ Teacher._id teacher ->
  ledgerEntry other (upsertContribution teacher n tcs) = ledgerEntry other tcs.
Proof.
  intros Hne. unfold ledgerEntry, upsertContribution.
  destruct (list_find (fun tc => Contribution.teacherId tc = Teacher._id teacher)
                      tcs) as [[j c]|] eqn:Hmine.
  - apply list_find_Some in Hmine as (Hj & Hc & _).
    rewrite list_find_alter_stable by done.
    destruct (list_find _ tcs) as [[k y]|] eqn:Hother; [|done]. simpl.
    apply list_find_Some in Hother as (Hk & Hy & _).
    case_decide as Hkj; [|done]. subst k. congruence.
  - destruct (list_find (fun tc => Contribution.teacherId tc
                                   = Teacher._id other) tcs)
      as [[k y]|] eqn:Hother.
    + by rewrite (list_find_app_l _ _ _ _ _ Hother).
    + rewrite list_find_app_r by done. simpl.
      by rewrite decide_False by (simpl; congruence).
Qed.

(** X10.  The ledger accounts for the questions.  In every collection the
    server can reach, every question of every slot is attributed to a
    teacher, and for every teacher the count in the teacher's ledger entry
    of a slot (0 when there is no entry) is the number of the teacher's
    questions in that slot. *)
Theorem reachable_ledger_accounts db id event slot teacher :
  reachable db ->
  db !! id = Some event ->
  slot ∈ JambEvent.subjects event ->
  Forall (fun q => is_Some (Question.teacherId q)) (Subject.questions slot)
  ∧ default 0 (ledgerEntry teacher (Subject.teacherContributions slot))
    = Z.of_nat (length (existingQuestions teacher (Subject.questions slot))).
Proof.
  intros Hreach Hev. revert slot teacher.
  enough (Hinv : ∀ slot, slot ∈ JambEvent.subjects event ->
    Forall (fun q => is_Some (Question.teacherId q)) (Subject.questions slot)
    ∧ ∀ teacher,
        default 0 (ledgerEntry teacher (Subject.teacherContributions slot))
        = Z.of_nat (length (existingQuestions teacher
                              (Subject.questions slot)))).
  { intros slot teacher Hin. destruct (Hinv slot Hin). auto. }
  revert db Hreach id event Hev.
  apply (reachable_event_invariant (fun event =>
    ∀ slot, slot ∈ JambEvent.subjects event ->
      Forall (fun q => is_Some (Question.teacherId q)) (Subject.questions slot)
      ∧ ∀ teacher,
          default 0 (ledgerEntry teacher (Subject.teacherContributions slot))
          = Z.of_nat (length (existingQuestions teacher
                                (Subject.questions slot))))).
  - intros host sid body slot Hin. unfold newEvent in Hin. simpl in Hin.
    repeat (apply elem_of_cons in Hin as [->|Hin]; [by split|]).
    by apply elem_of_nil in Hin.
  - intros event IH _ slot Hin. by apply IH.
  - intros teacher i s qs newQs event IH _ Hfind _ Hmap slot Hin.
    rewrite subjects_savedEvent in Hin.
    apply list_elem_of_lookup in Hin as [j Hj].
    rewrite list_lookup_alter in Hj. case_decide as Hij.
    2:{ apply IH. apply list_elem_of_lookup. eauto. }
    subst j. destruct (findSubject_lookup _ _ _ _ Hfind) as [Hi _].
    rewrite Hi in Hj. injection Hj as <-.
    destruct (IH s) as [Hattr Hledger];
      [apply list_elem_of_lookup; eauto|].
    pose proof (mapThrows_newQuestion_teacherId _ _ _ Hmap) as Hnew.
    pose proof (mapThrows_newQuestion_length _ _ _ Hmap) as Hlen.
    split.
    + simpl. apply Forall_app. split.
      * unfold otherQuestions. apply Forall_forall. intros q Hq.
        apply list_elem_of_filter in Hq as [_ Hq].
        eapply Forall_forall in Hattr; eauto.
      * eapply Forall_impl; [exact Hnew|]. simpl. intros q ->. eauto.
    + intros other. simpl.
      destruct (decide (Teacher._id other = Teacher._id teacher)) as [Heq|Hne].
      * rewrite (ledgerEntry_same_id other teacher) by done.
        rewrite (existingQuestions_same_id other teacher) by done.
        rewrite ledgerEntry_upsert, existingQuestions_replaced by done.
        simpl. by rewrite Hlen.
      * rewrite ledgerEntry_upsert_other by done.
        rewrite existingQuestions_other_teacher by done. apply Hledger.
Qed.

Lemma reachable_ledger_accounts_witness :
  default 0
    (ledgerEntry Scenario.ada
       (Subject.teacherContributions
          (Scenario.mathematics
             (contribute (Scenario.created 2)
                (Scenario.request Scenario.ada (Scenario.batchOf 2))).1)))
  = Z.of_nat
      (length
         (existingQuestions Scenario.ada
            (Subject.questions
               (Scenario.mathematics
                  (contribute (Scenario.created 2)
                     (Scenario.request Scenario.ada
                        (Scenario.batchOf 2))).1))))
  ∧ ledgerEntry Scenario.ada
      (Subject.teacherContributions
         (Scenario.mathematics
            (contribute (Scenario.created 2)
               (Scenario.request Scenario.ada (Scenario.batchOf 2))).1))
    = Some 2.
Proof.
  split; [|vm_compute; reflexivity].
  apply (reachable_ledger_accounts
           (contribute (Scenario.created 2)
              (Scenario.request Scenario.ada (Scenario.batchOf 2))).1
           Scenario.eventId
           (Scenario.stored
              (contribute (Scenario.created 2)
                 (Scenario.request Scenario.ada (Scenario.batchOf 2))).1)).
  - apply (reachable_step (Scenario.created 2)); [|apply step_contribute].
    apply (reachable_step ∅); [constructor|].
    by apply (step_create ∅ Scenario.host
                (EventInput.mk "Mock" None 60 2 0) Scenario.eventId "share").
  - vm_compute. reflexivity.
  - vm_compute. left.
Defined.

(** ** The routes of the host *)

(** X12.  No request of a host gets past the middleware.  Whatever the
    cookie, whatever tokens [jwt.verify] accepts and whoever is in the
    [Host] collection, [authenticateHost] answers 401 and never calls
    [next()]: a create call stores no event and a delete call removes none,
    also for the host of the event with a token that verifies, who is told
    "Invalid host token"; a request without the cookie is told "No host
    token provided". *)
Theorem host_routes_unauthorized verify hosts db token body newId shareId
    eventId :
  ∃ message,
    authenticateHost verify hosts token = inl (JsonError 401 message None)
    ∧ createRoute verify hosts db token body newId shareId
      = (db, JsonError 401 message None)
    ∧ deleteRoute verify hosts db token eventId
      = (db, JsonError 401 message None)
    ∧ (message = "No host token provided"
       ∨ message = "Invalid host token"
       ∨ message = "Host not found")
    ∧ (token = None -> message = "No host token provided")
    ∧ (∀ t host, token = Some t -> t ≠ "" ->
                 verify t = Some (Some host) -> host ∈ hosts ->
                 message = "Invalid host token").
Proof.
  destruct (authenticateHost_rejects verify hosts token) as (m & Hm & Hcases).
  exists m. unfold createRoute, deleteRoute, behindAuthenticateHost.
  rewrite Hm. split_and!; try done.
  - intros ->. by injection Hm as <-.
  - intros t host -> Ht Hverify Hhost.
    rewrite (authenticateHost_valid_token verify hosts t host) in Hm by done.
    by injection Hm as <-.
Qed.

Lemma host_routes_unauthorized_witness :
  deleteRoute Scenario.verify Scenario.hosts (Scenario.allDone 1)
    (Some Scenario.hostToken) Scenario.eventId
  = (Scenario.allDone 1, JsonError 401 "Invalid host token" None)
  ∧ createRoute Scenario.verify Scenario.hosts ∅ (Some Scenario.hostToken)
      (EventInput.mk "Mock" None 60 2 0) Scenario.eventId "share"
    = (∅, JsonError 401 "Invalid host token" None).
Proof.
  destruct (host_routes_unauthorized Scenario.verify Scenario.hosts
              (Scenario.allDone 1) (Some Scenario.hostToken)
              (EventInput.mk "Mock" None 60 2 0) Scenario.eventId "share"
              Scenario.eventId)
    as (m & _ & _ & Hdelete & _ & _ & Hvalid).
  rewrite (Hvalid Scenario.hostToken Scenario.host) in Hdelete;
    [|reflexivity|discriminate|reflexivity
     |apply (bool_decide_unpack _); vm_compute; exact I].
  split; [exact Hdelete|reflexivity].
Defined.

(** ** What students are served *)

Lemma findPublished_Some db shareId event :
  findPublished db shareId = Some event ->
  ∃ id, db !! id = Some event
        ∧ JambEvent.shareId event = shareId
        ∧ JambEvent.status event = published.
Proof.
  unfold findPublished.
  destruct (list_find _ (map_to_list db)) as [[k [id e]]|] eqn:Hfind; [|done].
  simpl. intros [= <-].
  apply list_find_Some in Hfind as (Hk & [Hshare Hst] & _).
  exists id. split_and!; try done.
  apply elem_of_map_to_list. apply list_elem_of_lookup. eauto.
Qed.

(** X14.  Students are served published, complete events only.  In every
    collection the server can reach, an event found under a share id by the
    student routes is stored, has that share id and status [published], and
    each of its five slots holds at least as many questions as the quota.
    An event that is still active or only completed is never found. *)
Theorem findPublished_complete db shareId event :
  reachable db ->
  findPublished db shareId = Some event ->
  (∃ id, db !! id = Some event)
  ∧ JambEvent.shareId event = shareId
  ∧ JambEvent.status event = published
  ∧ length (JambEvent.subjects event) = 5%nat
  ∧ Forall (fun s => JambEvent.questionsPerSubject event
                     <= Z.of_nat (length (Subject.questions s)))
           (JambEvent.subjects event).
Proof.
  intros Hreach (id & Hev & Hshare & Hst)%findPublished_Some.
  split_and!; eauto.
  - assert (Hnames : map Subject.subject (JambEvent.subjects event)
                     = eventSubjects).
    { clear Hshare Hst. revert db Hreach id event Hev.
      apply (reachable_event_invariant (fun event =>
               map Subject.subject (JambEvent.subjects event)
               = eventSubjects)); [done|done|].
      intros teacher i slot qs newQs event IH _ _ _ _.
      by rewrite subjectNames_savedEvent. }
    by rewrite <- (length_map Subject.subject), Hnames.
  - destruct (reachable_lifecycle db id event Hreach Hev) as [Hdone _].
    pose proof (reachable_cachesAgree db Hreach id event Hev) as [_ Hcache].
    assert (Hall : allSubjectsComplete event = true)
      by (apply Hdone; congruence).
    apply allSubjectsComplete_true in Hall.
    apply Forall_forall. intros s Hs.
    eapply Forall_forall in Hall; [|exact Hs].
    eapply Forall_forall in Hcache; [|exact Hs]. simpl in *. lia.
Qed.

Lemma findPublished_complete_witness :
  findPublished Scenario.allPublished "share"
  = Some (Scenario.stored Scenario.allPublished)
  ∧ JambEvent.questionsPerSubject (Scenario.stored Scenario.allPublished) = 1
  ∧ Forall (fun s => JambEvent.questionsPerSubject
                       (Scenario.stored Scenario.allPublished)
                     <= Z.of_nat (length (Subject.questions s)))
           (JambEvent.subjects (Scenario.stored Scenario.allPublished)).
Proof.
  split_and!; [vm_compute; reflexivity..|].
  apply (findPublished_complete Scenario.allPublished "share").
  - apply (reachable_step (Scenario.allDone 1)); [|apply step_publish].
    do 5 (eapply reachable_step; [|apply step_contribute]).
    apply (reachable_step ∅); [constructor|].
    by apply (step_create ∅ Scenario.host
                (EventInput.mk "Mock" None 60 1 0) Scenario.eventId "share").
  - vm_compute. reflexivity.
Defined.

(** ** Scoring a JAMB mock submission *)

Lemma subjectScore_bounds subject answers :
  0 <= subjectScore subject answers
  <= Z.of_nat (length (subjectAnswers subject answers)).
Proof.
  unfold subjectScore.
  enough (∀ l acc,
    acc <= foldl (fun score answer =>
                    if answeredCorrectly subject answer then score + 1
                    else score) acc l
    <= acc + Z.of_nat (length l)) as H.
  { specialize (H (subjectAnswers subject answers) 0). lia. }
  induction l as [|a l IH]; intros acc; simpl; [lia|].
  destruct (answeredCorrectly subject a).
  - specialize (IH (acc + 1)). lia.
  - specialize (IH acc). lia.
Qed.

Lemma scoreSubmission_from answers scores totalScore totalQuestions
    (subjects : list Subject.t) :
  foldl (fun acc subject =>
           let '(scores, totalScore, totalQuestions) := acc in
           let mine := subjectAnswers subject answers in
           let score := subjectScore subject answers in
           ((scores ++ [SubjectScore.mk (Subject.subject subject) score
                          (Z.of_nat (length mine))])%list,
            totalScore + score,
            totalQuestions + Z.of_nat (length mine)))
        (scores, totalScore, totalQuestions) subjects
  = ((scores
      ++ map (fun s => SubjectScore.mk (Subject.subject s)
                         (subjectScore s answers)
                         (Z.of_nat (length (subjectAnswers s answers))))
             subjects)%list,
     totalScore + foldr Z.add 0 (map (fun s => subjectScore s answers) subjects),
     totalQuestions
     + foldr Z.add 0
         (map (fun s => Z.of_nat (length (subjectAnswers s answers)))
              subjects)).
Proof.
  revert scores totalScore totalQuestions.
  induction subjects as [|s subjects IH]; intros scores ts tq; simpl.
  - by rewrite app_nil_r, !Z.add_0_r.
  - rewrite IH, <- app_assoc. simpl. by rewrite !Z.add_assoc.
Qed.

(** X16.  The result of scoring a submission is consistent.  The scores
    array has one entry per slot of the event, in slot order and under the
    slot's name; each entry's score is between 0 and the number of answers
    given for that subject; the total score and the total number of
    questions are the sums of the entries, so the total score never exceeds
    the total number of questions. *)
Theorem scoreSubmission_consistent event answers :
  let '(scores, totalScore, totalQuestions) := scoreSubmission event answers in
  map SubjectScore.subject scores
  = map Subject.subject (JambEvent.subjects event)
  ∧ Forall (fun entry => 0 <= SubjectScore.score entry
                         <= SubjectScore.totalQuestions entry) scores
  ∧ totalScore = foldr Z.add 0 (map SubjectScore.score scores)
  ∧ totalQuestions = foldr Z.add 0 (map SubjectScore.totalQuestions scores)
  ∧ 0 <= totalScore <= totalQuestions.
Proof.
  unfold scoreSubmission. rewrite scoreSubmission_from. simpl.
  induction (JambEvent.subjects event) as [|s subjects IH]; simpl.
  - split_and!; try done; constructor.
  - destruct IH as (Hnames & Hall & Hscore & Htotal & Hle).
    pose proof (subjectScore_bounds s answers).
    split_and!.
    + by rewrite Hnames.
    + constructor; [done|exact Hall].
    + by rewrite <- Hscore.
    + by rewrite <- Htotal.
    + lia.
    + lia.
Qed.

Lemma subjectAnswers_count names answers :
  NoDup names ->
  foldr Z.add 0
    (map (fun name =>
            Z.of_nat (length (filter (fun a => Answer.subject a = name)
                                     answers)))
         names)
  = Z.of_nat (length (filter (fun a => Answer.subject a ∈ names) answers)).
Proof.
  induction 1 as [|name names Hfresh _ IH]; simpl.
  - induction answers as [|a answers IHa]; [done|].
    rewrite filter_cons_False; [done|]. apply not_elem_of_nil.
  - rewrite IH. clear IH.
    induction answers as [|a answers IHa]; [done|].
    rewrite !filter_cons.
    destruct (decide (Answer.subject a = name)) as [Heq|Hne];
      destruct (decide (Answer.subject a ∈ names)) as [Hin|Hout];
      destruct (decide (Answer.subject a ∈ name :: names)) as [Hin'|Hout'];
      simpl in *; try lia; exfalso.
    + apply Hfresh. by rewrite <- Heq.
    + apply Hfresh. by rewrite <- Heq.
    + apply Hout'. rewrite Heq. left.
    + apply Hout'. by right.
    + apply elem_of_cons in Hin' as [?|?]; done.
Qed.

(** X17.  Which answers are counted.  For an event whose slots have
    distinct names, as every event the server creates has, the total number
    of questions reported for a submission is the number of its answers
    that name a slot of the event: answers for any other subject are
    ignored, so the total is at most the number of answers sent. *)
Theorem scoreSubmission_counts_answers event answers :
  NoDup (map Subject.subject (JambEvent.subjects event)) ->
  (scoreSubmission event answers).2
  = Z.of_nat (length (answersInEvent event answers))
  ∧ (scoreSubmission event answers).2 <= Z.of_nat (length answers).
Proof.
  intros Hnames.
  assert (Htotal : (scoreSubmission event answers).2
                   = Z.of_nat (length (answersInEvent event answers))).
  { unfold scoreSubmission. rewrite scoreSubmission_from. simpl.
    unfold answersInEvent. rewrite <- subjectAnswers_count by done.
    by rewrite map_map. }
  split; [done|]. rewrite Htotal.
  pose proof (length_filter
                (fun a => Answer.subject a
                          ∈ map Subject.subject (JambEvent.subjects event))
                answers).
  unfold answersInEvent. lia.
Qed.

Lemma scoreSubmission_counts_answers_witness :
  (scoreSubmission (Scenario.stored (Scenario.allDone 1))
     [Answer.mk "Physics" 0 (Some 1); Answer.mk "History" 0 (Some 1)]).2
  <= 2.
Proof.
  apply (scoreSubmission_counts_answers
           (Scenario.stored (Scenario.allDone 1))
           [Answer.mk "Physics" 0 (Some 1); Answer.mk "History" 0 (Some 1)]).
  apply (bool_decide_unpack _). vm_compute. exact I.
Defined.

Lemma subjectScore_app subject answers answers' :
  subjectScore subject (answers ++ answers')
  = subjectScore subject answers + subjectScore subject answers'.
Proof.
  unfold subjectScore, subjectAnswers. rewrite filter_app, foldl_app.
  generalize (filter (fun a => Answer.subject a = Subject.subject subject)
                     answers').
  generalize (foldl (fun score answer =>
                       if answeredCorrectly subject answer then score + 1
                       else score) 0
                    (filter (fun a => Answer.subject a
                                      = Subject.subject subject) answers)).
  intros acc l. revert acc.
  enough (∀ base acc,
    foldl (fun score answer =>
             if answeredCorrectly subject answer then score + 1 else score)
          (base + acc) l
    = base + foldl (fun score answer =>
                      if answeredCorrectly subject answer then score + 1
                      else score) acc l) as H.
  { intros acc. rewrite <- (H acc 0). f_equal. lia. }
  induction l as [|a l IH]; intros base acc; simpl; [done|].
  destruct (answeredCorrectly subject a); [|apply IH].
  rewrite <- IH. f_equal. lia.
Qed.

(** X18.  Answers are scored one by one, without looking at the others.
    The score of a subject is additive over the list of answers, and an
    answer to the same question sent [n] times scores [n] times: when the
    slot has a question at the index and the selected answer is its correct
    answer, [n] copies of the answer give the score [n], which can exceed
    the number of questions of the slot. *)
Theorem subjectScore_repeated subject index question n answers :
  at_index (Subject.questions subject) index = Some question ->
  subjectScore subject
    (replicate n (Answer.mk (Subject.subject subject) index
                    (Some (Question.correctAnswer question)))
     ++ answers)
  = Z.of_nat n + subjectScore subject answers.
Proof.
  intros Hq. rewrite subjectScore_app. f_equal.
  induction n as [|n IH]; [done|].
  change (replicate (S n) ?a) with ([a] ++ replicate n a)%list.
  rewrite subjectScore_app, IH.
  unfold subjectScore, subjectAnswers. rewrite filter_cons_True by done.
  simpl. unfold answeredCorrectly. simpl. rewrite Hq.
  rewrite bool_decide_eq_true_2 by done. lia.
Qed.

Lemma subjectScore_repeated_witness :
  subjectScore (Subject.mk "Physics"
                  [Question.mk "q" ["a"; "b"; "c"; "d"] 1 [] [] None None]
                  1 [])
    (replicate 3 (Answer.mk "Physics" 0 (Some 1)) ++ [])
  = 3 + 0.
Proof.
  apply (subjectScore_repeated
           (Subject.mk "Physics"
              [Question.mk "q" ["a"; "b"; "c"; "d"] 1 [] [] None None] 1 [])
           0 (Question.mk "q" ["a"; "b"; "c"; "d"] 1 [] [] None None) 3 []).
  reflexivity.
Defined.

(** ** Scoring a quiz submission *)

Lemma quizScoreFrom_closed questions answers index score :
  (index <= length questions)%nat ->
  quizScoreFrom questions index answers score
  = if decide (index + length answers <= length questions)%nat
    then Some (score
               + Z.of_nat (correctPositions (drop index questions) answers))
    else None.
Proof.
  revert index score. induction answers as [|a answers IH];
    intros index score Hindex; simpl.
  - rewrite decide_True by lia. unfold correctPositions. simpl.
    by rewrite Z.add_0_r.
  - destruct (questions !! index) as [q|] eqn:Hq.
    + apply lookup_lt_Some in Hq as Hlt. rewrite IH by lia.
      rewrite (drop_S _ _ _ Hq).
      destruct (decide (S index + length answers <= length questions)%nat).
      * rewrite decide_True by lia. f_equal.
        unfold correctPositions. simpl. rewrite filter_cons. simpl.
        case_bool_decide; case_decide; simpl; try done; lia.
      * by rewrite decide_False by lia.
    + apply lookup_ge_None in Hq. by rewrite decide_False by lia.
Qed.

(** X19.  The score of a quiz submission, in closed form.  When the
    submission has more answers than the quiz has questions the scoring
    loop throws (the handler answers 500 and saves nothing); otherwise the
    score is the number of positions at which the answer equals the correct
    answer of the question, missing trailing answers and unanswered
    positions scoring nothing, so it lies between 0 and the number of
    answers. *)
Theorem quizScore_closed questions answers :
  quizScore questions answers
  = (if decide (length answers <= length questions)%nat
     then Some (Z.of_nat (correctPositions questions answers))
     else None)
  ∧ (correctPositions questions answers <= length answers)%nat
  ∧ correctPositions questions
      (map (fun q => Some (Question.correctAnswer q)) questions)
    = length questions.
Proof.
  split_and!.
  - unfold quizScore. rewrite quizScoreFrom_closed by lia. simpl.
    repeat case_decide; try done; lia.
  - unfold correctPositions.
    etrans; [apply length_filter|]. rewrite length_zip. lia.
  - unfold correctPositions. induction questions as [|q questions IH]; [done|].
    simpl. rewrite filter_cons_True by done. simpl. by rewrite IH.
Qed.

(** ** The contribution form *)

Lemma elem_of_pushedQuestions q items :
  q ∈ pushedQuestions items <-> ItemPushed q ∈ items.
Proof.
  induction items as [|item items IH]; simpl.
  - split; intros H; by apply elem_of_nil in H.
  - destruct item as [|message|q']; rewrite ?elem_of_cons, IH;
      split; intros H.
    + by right.
    + by destruct H.
    + by right.
    + by destruct H.
    + destruct H as [->|H]; [by left|by right].
    + destruct H as [[= ->]|H]; [by left|by right].
Qed.

Lemma length_pushedQuestions items :
  (length (pushedQuestions items) + length (raisedAlerts items)
   <= length items)%nat.
Proof.
  induction items as [|[|message|q] items IH]; simpl; lia.
Qed.

Lemma formItem_pushed formData n q :
  formItem formData n = ItemPushed q ->
  ∃ text o0 o1 o2 o3,
    formData ("question-" +:+ pretty n) = Some text
    ∧ Js.trim text ≠ ""
    ∧ formData ("option-" +:+ pretty n +:+ "-0") = Some o0
    ∧ formData ("option-" +:+ pretty n +:+ "-1") = Some o1
    ∧ formData ("option-" +:+ pretty n +:+ "-2") = Some o2
    ∧ formData ("option-" +:+ pretty n +:+ "-3") = Some o3
    ∧ Forall (fun o => Js.trim o ≠ "") [o0; o1; o2; o3]
    ∧ FormQuestion.question q = Js.trim text
    ∧ FormQuestion.options q = map Js.trim [o0; o1; o2; o3]
    ∧ FormQuestion.correctAnswer q
      = match formData ("correct-" +:+ pretty n) with
        | None => Some (-1)
        | Some "" => Some (-1)
        | Some value => JsText.parseInt value
        end
    ∧ (∀ a, FormQuestion.correctAnswer q = Some a -> 0 <= a <= 3)
    ∧ FormQuestion.imageUrls q
      = readList (formData ("image-urls-" +:+ pretty n))
    ∧ FormQuestion.imagePublicIds q
      = readList (formData ("image-public-ids-" +:+ pretty n)).
Proof.
  unfold formItem.
  destruct (formData ("question-" +:+ pretty n)) as [text|]; [|done].
  destruct (bool_decide (text = "") || bool_decide (Js.trim text = ""))
    eqn:Hblank; [done|].
  apply orb_false_iff in Hblank as [_ Htext%bool_decide_eq_false].
  set (answer := match formData ("correct-" +:+ pretty n) with
                 | None => Some (-1)
                 | Some "" => Some (-1)
                 | Some value => JsText.parseInt value
                 end).
  destruct (existsb blankField _) eqn:Hoptions; [done|].
  simpl in Hoptions.
  repeat (apply orb_false_iff in Hoptions as [? Hoptions]).
  destruct (formData ("option-" +:+ pretty n +:+ "-0")) as [o0|]; [|done].
  destruct (formData ("option-" +:+ pretty n +:+ "-1")) as [o1|]; [|done].
  destruct (formData ("option-" +:+ pretty n +:+ "-2")) as [o2|]; [|done].
  destruct (formData ("option-" +:+ pretty n +:+ "-3")) as [o3|]; [|done].
  simpl in *.
  repeat match goal with
         | H : bool_decide _ || bool_decide _ = false |- _ =>
             apply orb_false_iff in H as [_ H%bool_decide_eq_false]
         end.
  destruct (match answer with
            | Some a => bool_decide (a < 0 ∨ a > 3)
            | None => false
            end) eqn:Hrange; [done|].
  intros [= <-]. exists text, o0, o1, o2, o3. simpl.
  split_and!; try done.
  - by repeat constructor.
  - intros a Ha. rewrite Ha in Hrange.
    apply bool_decide_eq_false in Hrange. lia.
Qed.

(** What is posted is not empty and holds pushed questions only. *)
Lemma saveQuestions_shape formData count eventData alerts questions :
  saveQuestions formData count eventData = (alerts, Posted questions) ->
  questions ≠ []
  ∧ Forall (fun q =>
              FormQuestion.question q ≠ ""
              ∧ length (FormQuestion.options q) = 4%nat
              ∧ Forall (fun o => o ≠ "") (FormQuestion.options q))
           questions.
Proof.
  unfold saveQuestions.
  case_decide as Hempty; [done|]. case_decide as Hmax; [done|].
  intros [= _ <-]. split.
  - by destruct (pushedQuestions _).
  - apply Forall_forall. intros q Hq.
    apply elem_of_pushedQuestions, list_elem_of_fmap in Hq as (n & Hitem & _).
    symmetry in Hitem.
    apply formItem_pushed in Hitem
      as (text & o0 & o1 & o2 & o3 & _ & Htext & _ & _ & _ & _ & Hopts
          & -> & -> & _).
    split_and!; try done. apply Forall_fmap. exact Hopts.
Qed.

(** X20.  Whatever the form holds, a batch that [saveQuestions] posts is
    well formed: it is not empty, it has at most as many questions as the
    form has question elements and at most the event's quota (10 when the
    event is unknown or its quota is 0), and every question in it has a
    non-empty trimmed text, exactly four non-empty trimmed options, and a
    correct answer that is a number from 0 to 3 unless [parseInt] gave
    [NaN].  In particular no question with a blank option is ever posted. *)
Theorem saveQuestions_posts_well_formed formData count eventData alerts
    questions :
  saveQuestions formData count eventData = (alerts, Posted questions) ->
  questions ≠ []
  ∧ (length questions + length alerts <= count)%nat
  ∧ Z.of_nat (length questions) <= maxQuestions eventData
  ∧ Forall (fun q =>
              FormQuestion.question q ≠ ""
              ∧ length (FormQuestion.options q) = 4%nat
              ∧ Forall (fun o => o ≠ "") (FormQuestion.options q)
              ∧ ∀ a, FormQuestion.correctAnswer q = Some a -> 0 <= a <= 3)
           questions.
Proof.
  unfold saveQuestions.
  set (items := map (formItem formData) (seq 1 count)).
  case_decide as Hempty; [done|]. case_decide as Hmax; [done|].
  intros [= <- <-]. split_and!.
  - by destruct (pushedQuestions items).
  - pose proof (length_pushedQuestions items) as Hlen.
    unfold items in Hlen at 3. by rewrite length_map, length_seq in Hlen.
  - lia.
  - apply Forall_forall. intros q Hq.
    apply elem_of_pushedQuestions in Hq. unfold items in Hq.
    apply list_elem_of_fmap in Hq as (n & Hitem & _). symmetry in Hitem.
    apply formItem_pushed in Hitem
      as (text & o0 & o1 & o2 & o3 & _ & Htext & _ & _ & _ & _ & Hopts
          & -> & -> & _ & Hanswer & _).
    split_and!; try done.
    apply Forall_fmap. exact Hopts.
Qed.

Lemma saveQuestions_posts_well_formed_witness :
  (length [FormQuestion.mk "What is 2 + 2?" ["3"; "4"; "5"; "6"] (Some 1%Z)
             ["http://img/a.png"; "http://img/b.png"] ["a"; "b"]]
   + length ["Question 2: All options must be filled"] <= 2)%nat
  ∧ Z.of_nat
      (length [FormQuestion.mk "What is 2 + 2?" ["3"; "4"; "5"; "6"] (Some 1)
                 ["http://img/a.png"; "http://img/b.png"] ["a"; "b"]])
    <= maxQuestions (Some (Scenario.stored (Scenario.created 2))).
Proof.
  destruct (saveQuestions_posts_well_formed FormScenario.formData 2
              (Some (Scenario.stored (Scenario.created 2)))
              ["Question 2: All options must be filled"]
              [FormQuestion.mk "What is 2 + 2?" ["3"; "4"; "5"; "6"] (Some 1)
                 ["http://img/a.png"; "http://img/b.png"] ["a"; "b"]])
    as (_ & Hcount & Hmax & _).
  - vm_compute. reflexivity.
  - split; [exact Hcount|exact Hmax].
Defined.

(** ** The hidden image inputs *)






(** ** From the form to the server *)

Lemma digitValue_pretty_N_char d :
  (d < 10)%N -> JsText.digitValue (pretty_N_char d) = Some (Z.of_N d).
Proof.
  intros Hd.
  assert (d = 0 ∨ d = 1 ∨ d = 2 ∨ d = 3 ∨ d = 4 ∨ d = 5 ∨ d = 6 ∨ d = 7
          ∨ d = 8 ∨ d = 9)%N as Hcases by lia.
  repeat (destruct Hcases as [->|Hcases]; [reflexivity|]).
  by subst.
Qed.

Lemma trimStart_ascii c rest :
  Js.isWhiteSpace c = false ->
  (N_of_ascii c < 128)%N ->
  Js.trimStart (String c rest) = String c rest.
Proof.
  intros Hspace Hascii. unfold Js.trimStart. cbn [Js.stripWhiteSpace].
  rewrite Hspace. destruct rest as [|c2 [|c3 rest]]; [done| |].
  - unfold Js.isWhiteSpace2. by rewrite bool_decide_eq_false_2 by lia.
  - unfold Js.isWhiteSpace2, Js.isWhiteSpace3.
    by rewrite !bool_decide_eq_false_2 by lia.
Qed.

Lemma pretty_N_char_ascii d :
  (d < 10)%N -> (N_of_ascii (pretty_N_char d) < 128)%N.
Proof.
  intros Hd.
  assert (d = 0 ∨ d = 1 ∨ d = 2 ∨ d = 3 ∨ d = 4 ∨ d = 5 ∨ d = 6 ∨ d = 7
          ∨ d = 8 ∨ d = 9)%N as Hcases by lia.
  repeat (destruct Hcases as [->|Hcases]; [reflexivity|]).
  by subst.
Qed.

Lemma pretty_N_char_leading d :
  (0 < d < 10)%N ->
  Js.isWhiteSpace (pretty_N_char d) = false
  ∧ pretty_N_char d ≠ "-"%char
  ∧ pretty_N_char d ≠ "+"%char
  ∧ pretty_N_char d ≠ "0"%char.
Proof.
  intros Hd.
  assert (d = 1 ∨ d = 2 ∨ d = 3 ∨ d = 4 ∨ d = 5 ∨ d = 6 ∨ d = 7
          ∨ d = 8 ∨ d = 9)%N as Hcases by lia.
  repeat (destruct Hcases as [->|Hcases]; [by split_and!|]).
  subst. by split_and!.
Qed.

Lemma digitsFrom_digit radix c d s acc :
  JsText.digitValue c = Some d ->
  d < radix ->
  JsText.digitsFrom radix (String c s) acc
  = JsText.digitsFrom radix s (Some (default 0 acc * radix + d)).
Proof. intros Hc Hd. simpl. rewrite Hc. by rewrite decide_True. Qed.

(** The decimal numeral of a positive number starts with a digit other
    than 0 and reads back as the number. *)
Lemma pretty_N_go_digits x :
  (0 < x)%N ->
  (∃ d, (0 < d < 10)%N
        ∧ ∀ s, ∃ rest, pretty_N_go x s = String (pretty_N_char d) rest)
  ∧ ∃ k, 0 <= k
         ∧ ∀ s acc,
             JsText.digitsFrom 10 (pretty_N_go x s) acc
             = JsText.digitsFrom 10 s
                 (Some (default 0 acc * 10 ^ k + Z.of_N x)).
Proof.
  induction (N.lt_wf_0 x) as [x _ IH]. intros Hpos.
  destruct (decide (x < 10)%N) as [Hsmall|Hlarge].
  - assert (Hstep : ∀ s, pretty_N_go x s = String (pretty_N_char x) s).
    { intros s. rewrite pretty_N_go_step by done.
      rewrite N.div_small, N.mod_small by done. apply pretty_N_go_0. }
    split.
    + exists x. split; [lia|]. intros s. exists s. apply Hstep.
    + exists 1. split; [lia|]. intros s acc. rewrite Hstep.
      rewrite (digitsFrom_digit 10 _ (Z.of_N x))
        by (by apply digitValue_pretty_N_char || lia).
      do 2 f_equal; lia.
  - assert (Hdiv : (0 < x `div` 10 < x)%N).
    { split; [apply N.div_str_pos; lia|apply N.div_lt; lia]. }
    destruct (IH (x `div` 10)%N) as [(d & Hd & Hlead) (k & Hk & Hdigits)];
      [lia|lia|].
    split.
    + exists d. split; [done|]. intros s. rewrite pretty_N_go_step by done.
      apply Hlead.
    + exists (k + 1). split; [lia|]. intros s acc.
      rewrite pretty_N_go_step by done. rewrite Hdigits.
      rewrite (digitsFrom_digit 10 _ (Z.of_N (x `mod` 10)%N)).
      * do 2 f_equal. simpl. rewrite Z.pow_add_r by lia.
        rewrite (N.div_mod x 10) at 3 by done.
        rewrite N2Z.inj_add, N2Z.inj_mul. simpl. lia.
      * apply digitValue_pretty_N_char. by apply N.mod_lt.
      * pose proof (N.mod_lt x 10). lia.
Qed.

Lemma parseInt_pretty_nat (n : nat) :
  JsText.parseInt (pretty n) = Some (Z.of_nat n).
Proof.
  unfold pretty, pretty_nat, pretty, pretty_N.
  case_decide as Hzero.
  - assert (n = 0%nat) as -> by lia. reflexivity.
  - destruct (pretty_N_go_digits (N.of_nat n))
      as [(d & Hd & Hlead) (k & Hk & Hdigits)]; [lia|].
    destruct (Hlead "") as [rest Hrest].
    destruct (pretty_N_char_leading d Hd) as (Hspace & Hminus & Hplus & Hnought).
    unfold JsText.parseInt. rewrite Hrest.
    rewrite trimStart_ascii by (done || apply pretty_N_char_ascii; lia).
    rewrite (decide_False (P := pretty_N_char d = "-"%char)) by done.
    rewrite (decide_False (P := pretty_N_char d = "+"%char)) by done.
    assert (Hradix :
      match String (pretty_N_char d) rest with
      | String c (String c' rest') =>
          if decide (c = "0"%char ∧ (c' = "x"%char ∨ c' = "X"%char))
          then (16, rest') else (10, String (pretty_N_char d) rest)
      | _ => (10, String (pretty_N_char d) rest)
      end = (10, String (pretty_N_char d) rest)).
    { destruct rest as [|c' rest']; [done|].
      rewrite decide_False; [done|]. by intros [? _]. }
    rewrite Hradix. rewrite <- Hrest, Hdigits. simpl.
    f_equal. lia.
Qed.

(** X22.  From the form to the server.  When the value of every
    [correct-N] field is a decimal numeral, as the radio buttons written
    by [addQuestion] have, every question [saveQuestions] posts carries a
    number from 0 to 3, the posted batch passes the validation of the
    contribution handler, and on an active event with a slot for the
    teacher's subject the contribution call succeeds. *)
Theorem form_batch_accepted formData count eventData alerts questions
    db eventId teacher event i slot :
  saveQuestions formData count eventData = (alerts, Posted questions) ->
  (∀ (n : nat) value, formData ("correct-" +:+ pretty n) = Some value ->
                      ∃ k : nat, value = pretty k) ->
  db !! eventId = Some event ->
  JambEvent.status event = active ->
  findSubject teacher event = Some (i, slot) ->
  Forall (fun q => ∃ a, FormQuestion.correctAnswer q = Some a ∧ 0 <= a <= 3)
         questions
  ∧ validBatch (map asInput questions) = true
  ∧ ∃ db' t st,
      contribute db
        (mkContributeRequest eventId teacher (Some (map asInput questions)))
      = (db', QuestionsSaved (Z.of_nat (length questions)) t st).
Proof.
  intros Hsave Hradio Hev Hst Hfind.
  assert (Hanswers :
    Forall (fun q => ∃ a, FormQuestion.correctAnswer q = Some a ∧ 0 <= a <= 3)
           questions).
  { revert Hsave. unfold saveQuestions.
    case_decide; [done|]. case_decide; [done|]. intros [= _ <-].
    apply Forall_forall. intros q Hq.
    apply elem_of_pushedQuestions, list_elem_of_fmap in Hq as (n & Hitem & _).
    symmetry in Hitem.
    apply formItem_pushed in Hitem
      as (_ & _ & _ & _ & _ & _ & _ & _ & _ & _ & _ & _ & _ & _ & Hanswer
          & Hrange & _).
    destruct (FormQuestion.correctAnswer q) as [a|] eqn:Ha; [eauto|].
    exfalso. destruct (formData ("correct-" +:+ pretty n)) as [value|] eqn:Hv;
      [|done].
    destruct (Hradio n value Hv) as [k ->].
    rewrite parseInt_pretty_nat in Hanswer. by destruct (pretty k). }
  apply saveQuestions_shape in Hsave as (Hne & Hshape).
  assert (Hvalid : validBatch (map asInput questions) = true).
  { unfold validBatch. apply andb_true_iff. split.
    - apply bool_decide_eq_true. by destruct questions.
    - apply forallb_forall. intros input Hin. apply in_map_iff in Hin
        as (q & <- & Hq%list_elem_of_In).
      eapply Forall_forall in Hshape as (Htext & Hlen & _); [|exact Hq].
      eapply Forall_forall in Hanswers as (a & Ha & Hrange); [|exact Hq].
      unfold validQuestion, asInput. simpl. rewrite Ha.
      by rewrite !bool_decide_eq_true_2. }
  split_and!; [done|done|].
  destruct (contribute_accepts db
              (mkContributeRequest eventId teacher
                 (Some (map asInput questions)))
              (map asInput questions) event i slot)
    as (newQs & _ & Hcall); try done.
  simpl in Hcall. rewrite length_map in Hcall. eauto.
Qed.

Lemma form_batch_accepted_witness :
  validBatch
    (map asInput
       [FormQuestion.mk "What is 2 + 2?" ["3"; "4"; "5"; "6"] (Some 1)
          ["http://img/a.png"; "http://img/b.png"] ["a"; "b"]])
  = true.
Proof.
  destruct (form_batch_accepted FormScenario.formData 2
              (Some (Scenario.stored (Scenario.created 2)))
              ["Question 2: All options must be filled"]
              [FormQuestion.mk "What is 2 + 2?" ["3"; "4"; "5"; "6"] (Some 1)
                 ["http://img/a.png"; "http://img/b.png"] ["a"; "b"]]
              (Scenario.created 2) Scenario.eventId Scenario.ada
              (Scenario.stored (Scenario.created 2)) 0%nat
              (emptySubject "Mathematics"))
    as (_ & Hvalid & _).
  - vm_compute. reflexivity.
  - intros n value. unfold FormScenario.formData, FormScenario.fields.
    simpl. repeat case_bool_decide; simpl; intros [= <-];
      try discriminate; by exists 1%nat.
  - vm_compute. reflexivity.
  - reflexivity.
  - vm_compute. reflexivity.
  - exact Hvalid.
Defined.
